(** * ReplicateProvider: catalog bootstrap, capability inference, discovery merge

    A shallow embedding of [src/ReplicateProvider.ts].  JavaScript strings are
    modelled as [string] (sequences of 8-bit code units); [toLowerCase] folds
    the ASCII letters only, so statements about case are statements about
    ASCII text.  The [Map] holding the catalog keeps insertion order, as the
    JavaScript [Map] does, and is modelled as an association list with unique
    keys.  Promises are modelled by their settlement state and the event loop
    by a step function over the events the provider can observe. *)

From Stdlib Require Import String Ascii List Bool Arith NArith ZArith Lia.
From Stdlib Require Import QArith_base.
Import ListNotations.
Close Scope Q_scope.
Open Scope string_scope.

Set Implicit Arguments.

(* ===================================================================== *)
(** ** JavaScript string primitives used by the provider *)
(* ===================================================================== *)

Module JS.

(** One code unit of [String.prototype.toLowerCase], ASCII range. *)
Definition lower_ascii (c : ascii) : ascii :=
  let n := N_of_ascii c in
  if ((65 <=? n) && (n <=? 90))%N then ascii_of_N (n + 32) else c.

(** [s.toLowerCase()] *)
Fixpoint toLowerCase (s : string) : string :=
  match s with
  | EmptyString => EmptyString
  | String c s' => String (lower_ascii c) (toLowerCase s')
  end.

(** [t] is an initial segment of [s]. *)
Fixpoint starts_with (t s : string) : bool :=
  match t, s with
  | EmptyString, _ => true
  | String _ _, EmptyString => false
  | String a t', String b s' => Ascii.eqb a b && starts_with t' s'
  end.

(** [s.includes(t)]: [t] occurs at some position of [s]. *)
Fixpoint includes (s t : string) : bool :=
  starts_with t s ||
  match s with
  | EmptyString => false
  | String _ s' => includes s' t
  end.

(** [s.split('/')]: never the empty array. *)
Fixpoint split_slash (s : string) : list string :=
  match s with
  | EmptyString => [EmptyString]
  | String c s' =>
      if Ascii.eqb c "/" then EmptyString :: split_slash s'
      else match split_slash s' with
           | seg :: segs => String c seg :: segs
           | [] => [String c EmptyString]
           end
  end.

(** [a.pop()] read as a value: the last element, [undefined] on [[]]. *)
Fixpoint pop (a : list string) : option string :=
  match a with
  | [] => None
  | [x] => Some x
  | _ :: a' => pop a'
  end.

(** Truthiness of a string. *)
Definition truthy (s : string) : bool :=
  match s with EmptyString => false | _ => true end.

(** Truthiness of a possibly [undefined] string. *)
Definition truthy_opt (o : option string) : bool :=
  match o with Some s => truthy s | None => false end.

(** [a || b] where [a] is a possibly [undefined] string and [b] a string. *)
Definition or_str (a : option string) (b : string) : string :=
  match a with
  | Some s => if truthy s then s else b
  | None => b
  end.

(** [a || b] on numbers: [0] and [undefined] are falsy. *)
Definition or_num (a : option N) (b : N) : N :=
  match a with
  | Some n => if (n =? 0)%N then b else n
  | None => b
  end.

(** [Array.prototype.includes] on an array of enum values. *)
Definition array_includes {A} (eqb : A -> A -> bool) (a : list A) (x : A) : bool :=
  existsb (eqb x) a.

(** [Array.prototype.push], as a value. *)
Definition push {A} (a : list A) (x : A) : list A := a ++ [x].

End JS.

(* ===================================================================== *)
(** ** Data model *)
(* ===================================================================== *)

(** The [MediaCapability] enum of the host platform, as the provider uses it. *)
Inductive MediaCapability : Type :=
| TEXT_TO_IMAGE
| TEXT_TO_VIDEO
| TEXT_TO_AUDIO
| IMAGE_TO_IMAGE
| IMAGE_TO_VIDEO
| VIDEO_TO_VIDEO.

Definition capability_eqb (a b : MediaCapability) : bool :=
  match a, b with
  | TEXT_TO_IMAGE, TEXT_TO_IMAGE
  | TEXT_TO_VIDEO, TEXT_TO_VIDEO
  | TEXT_TO_AUDIO, TEXT_TO_AUDIO
  | IMAGE_TO_IMAGE, IMAGE_TO_IMAGE
  | IMAGE_TO_VIDEO, IMAGE_TO_VIDEO
  | VIDEO_TO_VIDEO, VIDEO_TO_VIDEO => true
  | _, _ => false
  end.

(** [capabilities.includes(c)] *)
Definition includes_capability (capabilities : list MediaCapability)
  (c : MediaCapability) : bool :=
  JS.array_includes capability_eqb capabilities c.

(** One descriptor of a parameter object literal. *)
Module ParamSpec.
Record t : Type := mk {
  type : option string;
  description : option string;
  min : option Q;
  max : option Q;
  default : option Q
}.
End ParamSpec.

(** [Record<string, any>] of parameter descriptors, in key order. *)
Definition Parameters : Type := list (string * ParamSpec.t).

(** [ProviderModel]: one catalog entry. *)
Module ProviderModel.
Record t : Type := mk {
  id : string;
  name : string;
  description : string;
  capabilities : list MediaCapability;
  parameters : Parameters
}.
End ProviderModel.

(** One record of the remote listing.  Every field may be missing; a [null]
    element of the listing behaves as the record with no field at all, since
    the code reads it through [modelData?.id]. *)
Module ModelData.
Record t : Type := mk {
  id : option string;
  name : option string;
  description : option string;
  parameters : option Parameters
}.
End ModelData.

(** The response of [client.listModels()]: [results] may be missing. *)
Record ListResponse : Type := { results : option (list ModelData.t) }.

Module ProviderConfig.
Record t : Type := mk {
  apiKey : option string;
  timeout : option N;
  retries : option N
}.
End ProviderConfig.

Module ReplicateConfig.
Record t : Type := mk {
  apiKey : string;
  timeout : N;
  retries : N
}.
End ReplicateConfig.

(** [new ReplicateClient(config)]: the client keeps the configuration it was
    built from; its network methods are events of the environment. *)
Record ReplicateClient : Type := { clientConfig : ReplicateConfig.t }.

(** [new Replicate({ auth })] *)
Record Replicate : Type := { auth : string }.

(** The insertion-ordered [Map<string, V>]. *)
Module JsMap.
Section WithValue.
Variable V : Type.

Definition t : Type := list (string * V).

Definition empty : t := [].

(** [m.get(k)] *)
Fixpoint get (m : t) (k : string) : option V :=
  match m with
  | [] => None
  | (k', v) :: m' => if String.eqb k' k then Some v else get m' k
  end.

(** [m.has(k)] *)
Definition has (m : t) (k : string) : bool :=
  match get m k with Some _ => true | None => false end.

(** [m.set(k, v)]: an existing key keeps its position, a new key goes last. *)
Fixpoint set (m : t) (k : string) (v : V) : t :=
  match m with
  | [] => [(k, v)]
  | (k', v') :: m' =>
      if String.eqb k' k then (k', v) :: m' else (k', v') :: set m' k v
  end.

(** [Array.from(m.values())] *)
Definition values (m : t) : list V := map snd m.

Definition keys (m : t) : list string := map fst m.

(** [m.size] *)
Definition size (m : t) : nat := length m.

End WithValue.
End JsMap.

Definition Catalog : Type := JsMap.t ProviderModel.t.

(** Settlement state of a promise. *)
Inductive Promise : Type :=
| Unstarted
| Pending
| Fulfilled
| Rejected (reason : string).

(** The provider object: its three private fields, and the promises created
    by the constructor's background discovery. *)
Record ReplicateProvider : Type := mkProvider {
  config : option ProviderConfig.t;
  client : option ReplicateClient;
  discoveredModels : Catalog;
  listing : Promise;          (* client.listModels() awaited by performModelDiscovery *)
  discoveryPromise : Promise; (* performModelDiscovery() *)
  timeoutPromise : Promise;   (* the 30000 ms timer *)
  background : Promise        (* discoverModelsInBackground() *)
}.

Definition set_config (c : option ProviderConfig.t) (this : ReplicateProvider) :=
  mkProvider c (client this) (discoveredModels this) (listing this)
    (discoveryPromise this) (timeoutPromise this) (background this).

Definition set_client (c : option ReplicateClient) (this : ReplicateProvider) :=
  mkProvider (config this) c (discoveredModels this) (listing this)
    (discoveryPromise this) (timeoutPromise this) (background this).

Definition set_discoveredModels (m : Catalog) (this : ReplicateProvider) :=
  mkProvider (config this) (client this) m (listing this)
    (discoveryPromise this) (timeoutPromise this) (background this).

Definition set_listing (p : Promise) (this : ReplicateProvider) :=
  mkProvider (config this) (client this) (discoveredModels this) p
    (discoveryPromise this) (timeoutPromise this) (background this).

Definition set_discoveryPromise (p : Promise) (this : ReplicateProvider) :=
  mkProvider (config this) (client this) (discoveredModels this) (listing this)
    p (timeoutPromise this) (background this).

Definition set_timeoutPromise (p : Promise) (this : ReplicateProvider) :=
  mkProvider (config this) (client this) (discoveredModels this) (listing this)
    (discoveryPromise this) p (background this).

Definition set_background (p : Promise) (this : ReplicateProvider) :=
  mkProvider (config this) (client this) (discoveredModels this) (listing this)
    (discoveryPromise this) (timeoutPromise this) p.

(* ===================================================================== *)
(** ** Methods as state transformers that may throw *)
(* ===================================================================== *)

(** Outcome of a call: a value, or a thrown [Error] with its message. *)
Inductive Result (A : Type) : Type :=
| Ok (a : A)
| Throw (message : string).
Arguments Ok {A} a.
Arguments Throw {A} message.

(** A method of the provider: reads and writes [this], returns or throws.
    What was written before a throw stays written. *)
Definition M (A : Type) : Type := ReplicateProvider -> Result A * ReplicateProvider.

Definition ret {A} (a : A) : M A := fun this => (Ok a, this).

Definition throw {A} (message : string) : M A := fun this => (Throw message, this).

Definition bind {A B} (m : M A) (k : A -> M B) : M B :=
  fun this =>
    match m this with
    | (Ok a, this') => k a this'
    | (Throw e, this') => (Throw e, this')
    end.

Definition read {A} (f : ReplicateProvider -> A) : M A := fun this => (Ok (f this), this).

Definition write (f : ReplicateProvider -> ReplicateProvider) : M unit :=
  fun this => (Ok tt, f this).

(** [try { body } catch (error) { handler }] *)
Definition try_catch {A} (body : M A) (handler : string -> M A) : M A :=
  fun this =>
    match body this with
    | (Ok a, this') => (Ok a, this')
    | (Throw e, this') => handler e this'
    end.

(** Resuming after [await p] with the settlement of [p]. *)
Definition awaited {A} (r : Result A) : M A := fun this => (r, this).

(** How the promise of an [async] function settles when its body ends. *)
Definition settle {A} (r : Result A) : Promise :=
  match r with
  | Ok _ => Fulfilled
  | Throw e => Rejected e
  end.

Declare Scope provider_scope.
Delimit Scope provider_scope with provider.
Notation "x <- c ;; k" := (bind c (fun x => k))
  (at level 61, c at next level, right associativity) : provider_scope.
Notation "c ;; k" := (bind c (fun _ => k))
  (at level 61, right associativity) : provider_scope.
Open Scope provider_scope.

(* ===================================================================== *)
(** ** The provider *)
(* ===================================================================== *)

(** *** Bootstrap catalog: [initializeKnownReplicateModels] *)

(** An element of the [knownModels] array literal. *)
Record ModelDef : Type := {
  def_id : string;
  def_name : string;
  def_description : string;
  def_capabilities : list MediaCapability
}.

Definition knownModels : list ModelDef := [
  (* Text-to-Image models *)
  {| def_id := "black-forest-labs/flux-schnell";
     def_name := "FLUX.1 Schnell";
     def_description := "Fast and high-quality text-to-image generation";
     def_capabilities := [TEXT_TO_IMAGE] |};
  {| def_id := "black-forest-labs/flux-dev";
     def_name := "FLUX.1 Dev";
     def_description := "FLUX.1 development model for text-to-image";
     def_capabilities := [TEXT_TO_IMAGE] |};
  {| def_id := "stability-ai/sdxl";
     def_name := "Stable Diffusion XL";
     def_description := "Stable Diffusion XL for high-quality images";
     def_capabilities := [TEXT_TO_IMAGE] |};
  {| def_id := "bytedance/sdxl-lightning-4step";
     def_name := "SDXL Lightning";
     def_description := "Ultra-fast SDXL in 4 steps";
     def_capabilities := [TEXT_TO_IMAGE] |};
  {| def_id := "playgroundai/playground-v2.5-1024px-aesthetic";
     def_name := "Playground v2.5";
     def_description := "Aesthetic-focused image generation";
     def_capabilities := [TEXT_TO_IMAGE] |};
  (* Text-to-Video models *)
  {| def_id := "lumalabs/dream-machine";
     def_name := "Luma Dream Machine";
     def_description := "High-quality text-to-video generation";
     def_capabilities := [TEXT_TO_VIDEO] |};
  {| def_id := "minimax/video-01";
     def_name := "MiniMax Video-01";
     def_description := "Advanced text-to-video model";
     def_capabilities := [TEXT_TO_VIDEO] |};
  {| def_id := "genmo/mochi-1-preview";
     def_name := "Mochi-1 Preview";
     def_description := "High-quality video generation model";
     def_capabilities := [TEXT_TO_VIDEO] |};
  (* Text-to-Audio/Music models *)
  {| def_id := "meta/musicgen";
     def_name := "MusicGen";
     def_description := "Meta's music generation model";
     def_capabilities := [TEXT_TO_AUDIO] |};
  {| def_id := "suno-ai/bark";
     def_name := "Bark";
     def_description := "Text-to-speech with voice cloning";
     def_capabilities := [TEXT_TO_AUDIO] |};
  {| def_id := "afiaka87/tortoise-tts";
     def_name := "Tortoise TTS";
     def_description := "High-quality text-to-speech";
     def_capabilities := [TEXT_TO_AUDIO] |};
  (* Image-to-Image models *)
  {| def_id := "nightmareai/real-esrgan";
     def_name := "Real-ESRGAN";
     def_description := "Image upscaling and enhancement";
     def_capabilities := [IMAGE_TO_IMAGE] |};
  {| def_id := "tencentarc/gfpgan";
     def_name := "GFPGAN";
     def_description := "Face restoration and enhancement";
     def_capabilities := [IMAGE_TO_IMAGE] |};
  (* Image-to-Video models *)
  {| def_id := "stability-ai/stable-video-diffusion";
     def_name := "Stable Video Diffusion";
     def_description := "Generate videos from images";
     def_capabilities := [IMAGE_TO_VIDEO] |}
].

(** The [parameters] object literal given to every known model. *)
Definition knownParameters : Parameters := [
  ("prompt", ParamSpec.mk (Some "string") (Some "Text prompt for generation")
               None None None);
  ("width", ParamSpec.mk (Some "number") None
               (Some 128%Q) (Some 2048%Q) (Some 1024%Q));
  ("height", ParamSpec.mk (Some "number") None
               (Some 128%Q) (Some 2048%Q) (Some 1024%Q));
  ("num_inference_steps", ParamSpec.mk (Some "number") None
               (Some 1%Q) (Some 100%Q) (Some 50%Q));
  ("guidance_scale", ParamSpec.mk (Some "number") None
               (Some 0%Q) (Some 20%Q) (Some 7.5%Q))
].

(** The body of the [forEach] callback: the [ProviderModel] of a definition. *)
Definition knownProviderModel (modelDef : ModelDef) : ProviderModel.t :=
  ProviderModel.mk (def_id modelDef) (def_name modelDef)
    (def_description modelDef) (def_capabilities modelDef) knownParameters.

Definition initializeKnownReplicateModels (this : ReplicateProvider)
  : ReplicateProvider :=
  fold_left
    (fun this modelDef =>
       let providerModel := knownProviderModel modelDef in
       set_discoveredModels
         (JsMap.set (discoveredModels this) (def_id modelDef) providerModel)
         this)
    knownModels this.

(** *** Capability inference: [inferCapabilitiesFromModel] *)

Definition inferCapabilitiesFromModel (modelData : ModelData.t)
  : list MediaCapability :=
  let capabilities := [] in
  let modelId := JS.toLowerCase (JS.or_str (ModelData.id modelData) EmptyString) in
  let description :=
    JS.toLowerCase (JS.or_str (ModelData.description modelData) EmptyString) in
  let capabilities :=
    if JS.includes modelId "text-to-image" || JS.includes modelId "txt2img" ||
       JS.includes modelId "flux" || JS.includes modelId "sdxl" ||
       JS.includes modelId "stable-diffusion" ||
       JS.includes description "text to image" ||
       JS.includes description "generate image"
    then JS.push capabilities TEXT_TO_IMAGE else capabilities in
  let capabilities :=
    if JS.includes modelId "text-to-video" || JS.includes modelId "video" ||
       JS.includes description "text to video" ||
       JS.includes description "video generation"
    then JS.push capabilities TEXT_TO_VIDEO else capabilities in
  let capabilities :=
    if JS.includes modelId "music" || JS.includes modelId "audio" ||
       JS.includes modelId "speech" || JS.includes modelId "tts" ||
       JS.includes description "music" || JS.includes description "audio" ||
       JS.includes description "speech"
    then JS.push capabilities TEXT_TO_AUDIO else capabilities in
  let capabilities :=
    if JS.includes modelId "upscale" || JS.includes modelId "enhance" ||
       JS.includes modelId "restore" ||
       JS.includes description "upscale" || JS.includes description "enhance" ||
       JS.includes description "restore"
    then JS.push capabilities IMAGE_TO_IMAGE else capabilities in
  let capabilities :=
    if JS.includes modelId "image-to-video" ||
       JS.includes description "image to video"
    then JS.push capabilities IMAGE_TO_VIDEO else capabilities in
  (* Default to text-to-image if no specific capability detected *)
  let capabilities :=
    if (length capabilities =? 0)%nat
    then JS.push capabilities TEXT_TO_IMAGE else capabilities in
  capabilities.

(** *** Discovery merge: the loop of [performModelDiscovery] *)

(** The entry built for a record whose identifier is [id]. *)
Definition discoveredProviderModel (id : string) (modelData : ModelData.t)
  : ProviderModel.t :=
  ProviderModel.mk
    id
    (JS.or_str (ModelData.name modelData)
       (JS.or_str (JS.pop (JS.split_slash id)) id))
    (JS.or_str (ModelData.description modelData) ("Replicate model: " ++ id))
    (inferCapabilitiesFromModel modelData)
    (match ModelData.parameters modelData with Some p => p | None => [] end).

(** One iteration of [for (const modelData of models)]. *)
Definition discoverOne (catalog : Catalog) (modelData : ModelData.t) : Catalog :=
  match ModelData.id modelData with
  | None => catalog (* continue *)
  | Some id =>
      if negb (JS.truthy id) then catalog (* continue *)
      else if negb (JsMap.has catalog id)
           then JsMap.set catalog id (discoveredProviderModel id modelData)
           else catalog
  end.

Definition discoverAll (models : list ModelData.t) (catalog : Catalog) : Catalog :=
  fold_left discoverOne models catalog.

(** [performModelDiscovery] from [await this.client.listModels()] on, given
    how that promise settled. *)
Definition performModelDiscovery_resume (listed : Result ListResponse) : M unit :=
  try_catch
    (response <- awaited listed ;;
     let models := match results response with Some l => l | None => [] end in
     write (fun this =>
              set_discoveredModels (discoverAll models (discoveredModels this)) this))
    (fun error => ret tt).

(** [discoverModelsInBackground] from [await Promise.race(...)] on, given how
    the race settled. *)
Definition discoverModelsInBackground_resume (raced : Result unit) : M unit :=
  try_catch (awaited raced) (fun error => ret tt).

(** The race settles with the first of its two promises to settle; later
    settlements do not reach the awaiting method. *)
Definition race_settled (raced : Result unit) (this : ReplicateProvider)
  : ReplicateProvider :=
  match background this with
  | Pending =>
      let (r, this) := discoverModelsInBackground_resume raced this in
      set_background (settle r) this
  | _ => this
  end.

(** [performModelDiscovery] up to its first suspension: without a client it
    returns at once, with one it calls [client.listModels()] and awaits it. *)
Definition performModelDiscovery_start (this : ReplicateProvider)
  : ReplicateProvider :=
  match client this with
  | None => set_discoveryPromise Fulfilled this
  | Some _ =>
      let this := set_listing Pending this in
      set_discoveryPromise Pending this
  end.

(** [discoverModelsInBackground] up to its first suspension.  With a client,
    the timer is armed, [performModelDiscovery] is called, and the method
    awaits the race of the two promises. *)
Definition discoverModelsInBackground_start (this : ReplicateProvider)
  : ReplicateProvider :=
  match client this with
  | None => set_background Fulfilled this
  | Some _ =>
      let this := set_timeoutPromise Pending this in
      let this := performModelDiscovery_start this in
      let this := set_background Pending this in
      match discoveryPromise this with
      | Fulfilled => race_settled (Ok tt) this
      | Rejected e => race_settled (Throw e) this
      | _ => this
      end
  end.

(** *** Events of the environment *)

Inductive Event : Type :=
| ListingResolved (response : ListResponse)
| ListingRejected (error : string)
| TimerFired.

Definition listing_settled (listed : Result ListResponse)
  (this : ReplicateProvider) : ReplicateProvider :=
  match listing this with
  | Pending =>
      let this := set_listing (settle listed) this in
      let (r, this) := performModelDiscovery_resume listed this in
      let this := set_discoveryPromise (settle r) this in
      race_settled r this
  | _ => this
  end.

Definition timer_fired (this : ReplicateProvider) : ReplicateProvider :=
  match timeoutPromise this with
  | Pending =>
      let this := set_timeoutPromise (Rejected "Discovery timeout") this in
      race_settled (Throw "Discovery timeout") this
  | _ => this
  end.

Definition on_event (this : ReplicateProvider) (ev : Event) : ReplicateProvider :=
  match ev with
  | ListingResolved response => listing_settled (Ok response) this
  | ListingRejected error => listing_settled (Throw error) this
  | TimerFired => timer_fired this
  end.

Definition run (events : list Event) (this : ReplicateProvider) : ReplicateProvider :=
  fold_left on_event events this.

(** *** Construction *)

(** [new ReplicateProvider()], given [process.env.REPLICATE_API_TOKEN]. *)
Definition new_ReplicateProvider (REPLICATE_API_TOKEN : option string)
  : ReplicateProvider :=
  let this :=
    mkProvider None None (JsMap.empty _) Unstarted Unstarted Unstarted Unstarted in
  let this := initializeKnownReplicateModels this in
  match REPLICATE_API_TOKEN with
  | None => this
  | Some apiKey =>
      if JS.truthy apiKey then
        let replicateConfig := ReplicateConfig.mk apiKey 600000 2 in
        let this := set_client (Some {| clientConfig := replicateConfig |}) this in
        let this := set_config (Some (ProviderConfig.mk (Some apiKey) None None)) this in
        discoverModelsInBackground_start this
      else this
  end.

(** *** Public interface *)

(** [get models()] *)
Definition models (this : ReplicateProvider) : list ProviderModel.t :=
  JsMap.values (discoveredModels this).

Definition getModelsForCapability (capability : MediaCapability)
  : M (list ProviderModel.t) :=
  read (fun this =>
          filter (fun model =>
                    includes_capability (ProviderModel.capabilities model) capability)
                 (models this)).

Definition configure (config : ProviderConfig.t) : M unit :=
  write (set_config (Some config)) ;;
  match ProviderConfig.apiKey config with
  | Some apiKey =>
      if negb (JS.truthy apiKey) then throw "Replicate API token is required"
      else
        let replicateConfig :=
          ReplicateConfig.mk apiKey
            (JS.or_num (ProviderConfig.timeout config) 600000)
            (JS.or_num (ProviderConfig.retries config) 2) in
        write (set_client (Some {| clientConfig := replicateConfig |}))
  | None => throw "Replicate API token is required"
  end.

(** [supportsTextToImageModel] and its two siblings, by capability. *)
Definition supportsModel (modelId : string) (capability : MediaCapability)
  : M bool :=
  read (fun this =>
          match JsMap.get (discoveredModels this) modelId with
          | Some model => includes_capability (ProviderModel.capabilities model) capability
          | None => false
          end).

(** The fields of [ReplicateModelMetadata] that depend on the catalog entry;
    the constant fields, the converted parameters and the time stamp are left
    out. *)
Record ReplicateModelMetadata : Type := {
  meta_id : string;
  meta_owner : string;
  meta_name : string;
  meta_description : string;
  meta_category : string;
  meta_capabilities : list MediaCapability
}.

Definition getCategoryFromCapabilities (capabilities : list MediaCapability)
  : string :=
  if includes_capability capabilities TEXT_TO_IMAGE then "text-to-image"
  else if includes_capability capabilities TEXT_TO_VIDEO then "text-to-video"
  else if includes_capability capabilities TEXT_TO_AUDIO then "text-to-audio"
  else if includes_capability capabilities IMAGE_TO_IMAGE then "image-to-image"
  else if includes_capability capabilities IMAGE_TO_VIDEO then "image-to-video"
  else if includes_capability capabilities VIDEO_TO_VIDEO then "video-to-video"
  else "other".

(** The constructor arguments of a model wrapper. *)
Record WrapperArgs : Type := {
  arg_client : ReplicateClient;
  arg_modelMetadata : ReplicateModelMetadata;
  arg_replicateClient : Replicate
}.

(** The three wrapper classes, by constructor. *)
Inductive ModelWrapper : Type :=
| ReplicateTextToImageModel (args : WrapperArgs)
| ReplicateTextToVideoModel (args : WrapperArgs)
| ReplicateTextToAudioModel (args : WrapperArgs).

Section WithRemoteMetadata.

(** [client.getModelMetadata(modelId)], a call to the remote service. *)
Variable remoteModelMetadata : string -> Result ReplicateModelMetadata.

Definition getModelMetadata (modelId : string) : M ReplicateModelMetadata :=
  this_client <- read client ;;
  match this_client with
  | None => throw "Provider not configured"
  | Some _ =>
      knownModel <- read (fun this => JsMap.get (discoveredModels this) modelId) ;;
      match knownModel with
      | Some knownModel =>
          ret {| meta_id := modelId;
                 meta_owner :=
                   JS.or_str (hd_error (JS.split_slash modelId)) "unknown";
                 meta_name := ProviderModel.name knownModel;
                 meta_description :=
                   JS.or_str (Some (ProviderModel.description knownModel))
                     "Replicate model";
                 meta_category :=
                   getCategoryFromCapabilities (ProviderModel.capabilities knownModel);
                 meta_capabilities := ProviderModel.capabilities knownModel |}
      | None => awaited (remoteModelMetadata modelId)
      end
  end.

Definition getReplicateClient : M Replicate :=
  this_config <- read config ;;
  match this_config with
  | Some cfg =>
      match ProviderConfig.apiKey cfg with
      | Some apiKey =>
          if JS.truthy apiKey then ret {| auth := apiKey |}
          else throw "Provider not configured with API key"
      | None => throw "Provider not configured with API key"
      end
  | None => throw "Provider not configured with API key"
  end.

(** The common body of [createTextToImageModel], [createTextToVideoModel] and
    [createTextToAudioModel]; they differ in the class they instantiate. *)
Definition createModel (wrapper : WrapperArgs -> ModelWrapper) (modelId : string)
  : M ModelWrapper :=
  this_client <- read client ;;
  match this_client with
  | None => throw "Provider not configured"
  | Some c =>
      modelMetadata <- getModelMetadata modelId ;;
      replicateClient <- getReplicateClient ;;
      ret (wrapper {| arg_client := c;
                      arg_modelMetadata := modelMetadata;
                      arg_replicateClient := replicateClient |})
  end.

Definition createTextToImageModel := createModel ReplicateTextToImageModel.
Definition createTextToVideoModel := createModel ReplicateTextToVideoModel.
Definition createTextToAudioModel := createModel ReplicateTextToAudioModel.

(** The lookup of [getModel]: the entry of [modelId], or the error thrown
    when the catalog has none. *)
Definition resolveModel (modelId : string) : M ProviderModel.t :=
  model <- read (fun this => JsMap.get (discoveredModels this) modelId) ;;
  match model with
  | None => throw ("Model '" ++ modelId ++ "' not found in known models")
  | Some model => ret model
  end.

(** The choice of wrapper that ends [getModel]. *)
Definition dispatch (capabilities : list MediaCapability) (modelId : string)
  : M ModelWrapper :=
  if includes_capability capabilities TEXT_TO_IMAGE
  then createTextToImageModel modelId
  else if includes_capability capabilities TEXT_TO_VIDEO
  then createTextToVideoModel modelId
  else if includes_capability capabilities TEXT_TO_AUDIO
  then createTextToAudioModel modelId
  else (* Fallback: assume text-to-image for unknown models *)
    createTextToImageModel modelId.

Definition getModel (modelId : string) : M ModelWrapper :=
  this_client <- read client ;;
  match this_client with
  | None =>
      throw "Provider not configured - set REPLICATE_API_TOKEN environment variable or call configure()"
  | Some _ =>
      model <- resolveModel modelId ;;
      let capabilities := ProviderModel.capabilities model in
      dispatch capabilities modelId
  end.

End WithRemoteMetadata.

(* ===================================================================== *)
(** ** Notions used to state the properties *)
(* ===================================================================== *)

(** A string field is given when it is present and not empty; this is the
    test [x || fallback] and [!x] make. *)
Definition given (field : option string) (s : string) : Prop :=
  field = Some s /\ s <> EmptyString.

Definition not_given (field : option string) : Prop :=
  field = None \/ field = Some EmptyString.

(** The text the classifier reads from a field: the empty string when the
    field is not given. *)
Definition text_of (field : option string) : string :=
  match field with Some s => s | None => EmptyString end.

(** [t] occurs in [s]. *)
Definition occurs (t s : string) : Prop :=
  exists pre suf, s = pre ++ t ++ suf.

(** [t] occurs in [s] up to the case of ASCII letters: some substring of [s]
    has the same lower-case form as [t]. *)
Definition ci_occurs (t s : string) : Prop :=
  exists pre u suf, s = pre ++ u ++ suf /\ JS.toLowerCase u = JS.toLowerCase t.

Fixpoint no_slash (s : string) : bool :=
  match s with
  | EmptyString => true
  | String c s' => negb (Ascii.eqb c "/") && no_slash s'
  end.

(** [seg] is the trailing path segment of [s]: what follows the last slash,
    or the whole of [s] when it has none. *)
Definition trailing_segment (s seg : string) : Prop :=
  no_slash seg = true /\
  ((s = seg) \/ (exists pre, s = pre ++ String "/" seg)).

(** The trigger table as the specification words it: one list of substrings
    per capability, each looked for in the identifier and in the description
    alike. *)
Definition spec_triggers (c : MediaCapability) : list string :=
  match c with
  | TEXT_TO_IMAGE =>
      ["text-to-image"; "txt2img"; "flux"; "sdxl"; "stable-diffusion";
       "text to image"; "generate image"]
  | TEXT_TO_VIDEO =>
      ["text-to-video"; "video"; "text to video"; "video generation"]
  | TEXT_TO_AUDIO => ["music"; "audio"; "speech"; "tts"]
  | IMAGE_TO_IMAGE => ["upscale"; "enhance"; "restore"]
  | IMAGE_TO_VIDEO => ["image-to-video"; "image to video"]
  | VIDEO_TO_VIDEO => []
  end.

Definition spec_matches (c : MediaCapability) (modelData : ModelData.t) : Prop :=
  exists t, In t (spec_triggers c) /\
            (ci_occurs t (text_of (ModelData.id modelData)) \/
             ci_occurs t (text_of (ModelData.description modelData))).

(** The substrings looked for in the identifier. *)
Definition id_triggers (c : MediaCapability) : list string :=
  match c with
  | TEXT_TO_IMAGE =>
      ["text-to-image"; "txt2img"; "flux"; "sdxl"; "stable-diffusion"]
  | TEXT_TO_VIDEO => ["text-to-video"; "video"]
  | TEXT_TO_AUDIO => ["music"; "audio"; "speech"; "tts"]
  | IMAGE_TO_IMAGE => ["upscale"; "enhance"; "restore"]
  | IMAGE_TO_VIDEO => ["image-to-video"]
  | VIDEO_TO_VIDEO => []
  end.

(** The substrings looked for in the description. *)
Definition description_triggers (c : MediaCapability) : list string :=
  match c with
  | TEXT_TO_IMAGE => ["text to image"; "generate image"]
  | TEXT_TO_VIDEO => ["text to video"; "video generation"]
  | TEXT_TO_AUDIO => ["music"; "audio"; "speech"]
  | IMAGE_TO_IMAGE => ["upscale"; "enhance"; "restore"]
  | IMAGE_TO_VIDEO => ["image to video"]
  | VIDEO_TO_VIDEO => []
  end.

(** A capability is triggered by a record when one of its identifier
    substrings occurs in the identifier or one of its description substrings
    occurs in the description, up to case. *)
Definition triggered (c : MediaCapability) (modelData : ModelData.t) : Prop :=
  (exists t, In t (id_triggers c) /\
             ci_occurs t (text_of (ModelData.id modelData))) \/
  (exists t, In t (description_triggers c) /\
             ci_occurs t (text_of (ModelData.description modelData))).

(** The same, decided. *)
Definition triggeredb (c : MediaCapability) (modelData : ModelData.t) : bool :=
  existsb (JS.includes (JS.toLowerCase (text_of (ModelData.id modelData))))
          (id_triggers c) ||
  existsb (JS.includes (JS.toLowerCase (text_of (ModelData.description modelData))))
          (description_triggers c).

(** The capabilities kept by the five tests, in the order of the tests. *)
Definition triggered_list (modelData : ModelData.t) : list MediaCapability :=
  filter (fun c => triggeredb c modelData)
    [TEXT_TO_IMAGE; TEXT_TO_VIDEO; TEXT_TO_AUDIO; IMAGE_TO_IMAGE; IMAGE_TO_VIDEO].

Definition spec_matchesb (c : MediaCapability) (modelData : ModelData.t) : bool :=
  existsb (fun t =>
             JS.includes (JS.toLowerCase (text_of (ModelData.id modelData))) t ||
             JS.includes (JS.toLowerCase (text_of (ModelData.description modelData))) t)
          (spec_triggers c).

Definition all_capabilities : list MediaCapability :=
  [TEXT_TO_IMAGE; TEXT_TO_VIDEO; TEXT_TO_AUDIO; IMAGE_TO_IMAGE; IMAGE_TO_VIDEO;
   VIDEO_TO_VIDEO].

(** The default schema as the specification lists it: name, type and, for
    the numeric ones, lower bound, upper bound and default. *)
Definition spec_default_schema : list (string * string * option (Q * Q * Q)) :=
  [("prompt", "string", None);
   ("width", "number", Some (128%Q, 2048%Q, 1024%Q));
   ("height", "number", Some (128%Q, 2048%Q, 1024%Q));
   ("num_inference_steps", "number", Some (1%Q, 100%Q, 50%Q));
   ("guidance_scale", "number", Some (0%Q, 20%Q, 7.5%Q))].

Definition schema_row (p : string * ParamSpec.t)
  : string * string * option (Q * Q * Q) :=
  (fst p, text_of (ParamSpec.type (snd p)),
   match ParamSpec.min (snd p), ParamSpec.max (snd p), ParamSpec.default (snd p) with
   | Some lo, Some hi, Some d => Some (lo, hi, d)
   | _, _, _ => None
   end).

(** The priority order of wrapper selection. *)
Definition dispatch_priority : list MediaCapability :=
  [TEXT_TO_IMAGE; TEXT_TO_VIDEO; TEXT_TO_AUDIO].

(** The first capability of the priority order that the entry has. *)
Definition first_matching (capabilities : list MediaCapability)
  : option MediaCapability :=
  find (includes_capability capabilities) dispatch_priority.

(** The wrapper class of a capability of the priority order; text-to-image
    when there is none. *)
Definition wrapper_of (c : option MediaCapability) : WrapperArgs -> ModelWrapper :=
  match c with
  | Some TEXT_TO_VIDEO => ReplicateTextToVideoModel
  | Some TEXT_TO_AUDIO => ReplicateTextToAudioModel
  | _ => ReplicateTextToImageModel
  end.

(** [l1] is [l2] with some elements left out, order kept. *)
Inductive sublist {A : Type} : list A -> list A -> Prop :=
| sublist_nil : sublist [] []
| sublist_skip x l1 l2 : sublist l1 l2 -> sublist l1 (x :: l2)
| sublist_keep x l1 l2 : sublist l1 l2 -> sublist (x :: l1) (x :: l2).

(** The catalog has no entry for [id]. *)
Definition absent (id : string) (catalog : Catalog) : Prop :=
  ~ In id (JsMap.keys catalog).

(** The event settles the listing call. *)
Definition settles_listing (ev : Event) : bool :=
  match ev with
  | ListingResolved _ | ListingRejected _ => true
  | TimerFired => false
  end.

(** The records of a response. *)
Definition records (response : ListResponse) : list ModelData.t :=
  match results response with Some l => l | None => [] end.

(** The states a provider can be in: built by the constructor, then moved by
    events of the environment and by calls of its public methods. *)
Inductive reachable : ReplicateProvider -> Prop :=
| reach_new token : reachable (new_ReplicateProvider token)
| reach_event this ev : reachable this -> reachable (on_event this ev)
| reach_configure this cfg : reachable this -> reachable (snd (configure cfg this))
| reach_getModel this remote modelId :
    reachable this -> reachable (snd (getModel remote modelId this))
| reach_getModelsForCapability this c :
    reachable this -> reachable (snd (getModelsForCapability c this))
| reach_supportsModel this modelId c :
    reachable this -> reachable (snd (supportsModel modelId c this)).

(* ===================================================================== *)
(** ** The remaining methods of the provider *)
(* ===================================================================== *)

(** [getSupportedTextToImageModels] and its two siblings, by capability:
    the identifiers of [getModelsForCapability]. *)
Definition getSupportedModels (capability : MediaCapability) : M (list string) :=
  listed <- getModelsForCapability capability ;;
  ret (map (fun m => ProviderModel.id m) listed).

Definition getSupportedTextToImageModels : M (list string) :=
  getSupportedModels TEXT_TO_IMAGE.

Definition getSupportedTextToVideoModels : M (list string) :=
  getSupportedModels TEXT_TO_VIDEO.

Definition getSupportedTextToAudioModels : M (list string) :=
  getSupportedModels TEXT_TO_AUDIO.

Definition supportsTextToImageModel (modelId : string) : M bool :=
  supportsModel modelId TEXT_TO_IMAGE.

Definition supportsTextToVideoModel (modelId : string) : M bool :=
  supportsModel modelId TEXT_TO_VIDEO.

Definition supportsTextToAudioModel (modelId : string) : M bool :=
  supportsModel modelId TEXT_TO_AUDIO.

(** The object returned by [getHealth]. *)
Module Health.
Record t : Type := mk {
  status : string;
  uptime : Q;
  activeJobs : N;
  queuedJobs : N;
  lastError : option string
}.
End Health.

(** The object returned by [getServiceStatus]. *)
Module ServiceStatus.
Record t : Type := mk {
  running : bool;
  healthy : bool;
  error : option string
}.
End ServiceStatus.

Section WithConnection.

(** How [client.testConnection()] settles, a call to the remote service. *)
Variable testConnection : ReplicateClient -> Result bool.

(** [process.uptime()] *)
Variable process_uptime : Q.

Definition isAvailable : M bool :=
  this_client <- read client ;;
  match this_client with
  | None => ret false
  | Some c => try_catch (awaited (testConnection c)) (fun error => ret false)
  end.

Definition getHealth : M Health.t :=
  available <- isAvailable ;;
  ret (Health.mk
         (if available : bool then "healthy" else "unhealthy")
         process_uptime
         0
         0
         (if available : bool then None else Some "API connection failed")).

Definition startService : M bool := isAvailable.

(** Remote API - no service to stop *)
Definition stopService : M bool := ret true.

Definition getServiceStatus : M ServiceStatus.t :=
  available <- isAvailable ;;
  ret (ServiceStatus.mk
         true (* Remote APIs are always running *)
         available
         (if available : bool then None else Some "API connection failed")).

End WithConnection.

(** What moves a provider after its construction: an event of the
    environment, or a call of [configure]; the other methods only read. *)
Inductive Action : Type :=
| Occur (ev : Event)
| Configure (cfg : ProviderConfig.t).

Definition perform (this : ReplicateProvider) (a : Action) : ReplicateProvider :=
  match a with
  | Occur ev => on_event this ev
  | Configure cfg => snd (configure cfg this)
  end.

Definition perform_all (actions : list Action) (this : ReplicateProvider)
  : ReplicateProvider :=
  fold_left perform actions this.

(** Two fields read the same to the classifier: equal up to the case of
    ASCII letters, a missing field counting as the empty text. *)
Definition same_text (a b : option string) : Prop :=
  JS.toLowerCase (text_of a) = JS.toLowerCase (text_of b).

(** The order in which the classifier tests the capabilities. *)
Definition classifier_order : list MediaCapability :=
  [TEXT_TO_IMAGE; TEXT_TO_VIDEO; TEXT_TO_AUDIO; IMAGE_TO_IMAGE; IMAGE_TO_VIDEO].

(** The first record of a listing that carries the identifier [id]. *)
Definition first_with_id (id : string) (models : list ModelData.t)
  : option ModelData.t :=
  find (fun modelData =>
          match ModelData.id modelData with
          | Some i => String.eqb i id
          | None => false
          end) models.

(** Keys are distinct, and each entry is stored under its own, non-empty,
    identifier. *)
Definition well_keyed (catalog : Catalog) : Prop :=
  NoDup (JsMap.keys catalog) /\
  Forall (fun kv => ProviderModel.id (snd kv) = fst kv /\ fst kv <> EmptyString)
         catalog.

(** The credentials a provider holds agree: a client has a non-empty key
    and non-zero timing values, there is a stored configuration whenever
    there is a client, and a key in the stored configuration is the key of
    the client. *)
Definition credentials_agree (this : ReplicateProvider) : Prop :=
  (forall c, client this = Some c ->
             ReplicateConfig.apiKey (clientConfig c) <> EmptyString /\
             ReplicateConfig.timeout (clientConfig c) <> 0%N /\
             ReplicateConfig.retries (clientConfig c) <> 0%N /\
             config this <> None) /\
  (forall cfg k, config this = Some cfg -> given (ProviderConfig.apiKey cfg) k ->
                 exists c, client this = Some c /\
                           ReplicateConfig.apiKey (clientConfig c) = k).

(** [configure] keeps the very object it is given ([this.config = config]),
    and [getReplicateClient] reads the key from it at each call, while the
    client is built from a copy of the values.  A caller that holds on to the
    object and assigns to its fields therefore changes what [this.config]
    reads, and nothing else: after such writes the stored configuration reads
    [cfg']. *)
Definition caller_writes (cfg' : ProviderConfig.t) (this : ReplicateProvider)
  : ReplicateProvider :=
  set_config (Some cfg') this.

(** The states of a provider whose callers may also write to the
    configuration objects they passed in.  The flag tells whether
    [this.config] is an object a caller holds: not after construction, where
    it is the constructor's own literal, and always after a call of
    [configure], failed or not. *)
Inductive reachable_sharing : ReplicateProvider -> bool -> Prop :=
| share_new token : reachable_sharing (new_ReplicateProvider token) false
| share_event this held ev :
    reachable_sharing this held -> reachable_sharing (on_event this ev) held
| share_configure this held cfg :
    reachable_sharing this held ->
    reachable_sharing (snd (configure cfg this)) true
| share_caller_writes this cfg' :
    reachable_sharing this true ->
    reachable_sharing (caller_writes cfg' this) true
| share_getModel this held remote modelId :
    reachable_sharing this held ->
    reachable_sharing (snd (getModel remote modelId this)) held
| share_getModelsForCapability this held c :
    reachable_sharing this held ->
    reachable_sharing (snd (getModelsForCapability c this)) held
| share_supportsModel this held modelId c :
    reachable_sharing this held ->
    reachable_sharing (snd (supportsModel modelId c this)) held.

(* ===================================================================== *)
(** ** Strings *)
(* ===================================================================== *)

Lemma append_nil_r (s : string) : s ++ EmptyString = s.
Proof. induction s as [|c s IH]; simpl; [reflexivity | now rewrite IH]. Qed.

Lemma append_assoc (a b c : string) : (a ++ b) ++ c = a ++ (b ++ c).
Proof. induction a as [|x a IH]; simpl; [reflexivity | now rewrite IH]. Qed.

Lemma prefix_true_iff (t s : string) :
  JS.starts_with t s = true <-> exists suf, s = t ++ suf.
Proof.
  revert s. induction t as [|c t IH]; intros s.
  - simpl. split; [intros _; now exists s | reflexivity].
  - destruct s as [|d s]; simpl.
    + split; [discriminate | intros [suf H]; discriminate].
    + rewrite andb_true_iff, IH, Ascii.eqb_eq.
      split; [intros [-> [suf ->]]; now exists suf|].
      intros [suf H]. injection H as -> ->. split; [reflexivity | now exists suf].
Qed.

Lemma includes_true_iff (s t : string) :
  JS.includes s t = true <-> occurs t s.
Proof.
  unfold occurs. induction s as [|c s IH].
  - simpl. rewrite orb_false_r, prefix_true_iff. split.
    + intros [suf H]. now exists EmptyString, suf.
    + intros [pre [suf H]]. destruct pre; [now exists suf | discriminate].
  - cbn [JS.includes]. rewrite orb_true_iff, IH, prefix_true_iff. split.
    + intros [[suf H] | [pre [suf H]]].
      * now exists EmptyString, suf.
      * exists (String c pre), suf. simpl. now rewrite H.
    + intros [pre [suf H]]. destruct pre as [|d pre].
      * left. now exists suf.
      * right. exists pre, suf. simpl in H. congruence.
Qed.

Lemma toLowerCase_app (a b : string) :
  JS.toLowerCase (a ++ b) = JS.toLowerCase a ++ JS.toLowerCase b.
Proof. induction a as [|c a IH]; simpl; [reflexivity | now rewrite IH]. Qed.

Lemma toLowerCase_split (s a b : string) :
  JS.toLowerCase s = a ++ b ->
  exists s1 s2, s = s1 ++ s2 /\ JS.toLowerCase s1 = a /\ JS.toLowerCase s2 = b.
Proof.
  revert s. induction a as [|c a IH]; intros s H.
  - exists EmptyString, s. now simpl in *.
  - destruct s as [|d s]; simpl in H; [discriminate|].
    injection H as Hc Hs. destruct (IH _ Hs) as (s1 & s2 & -> & H1 & H2).
    exists (String d s1), s2. simpl. now rewrite Hc, H1, H2.
Qed.

Lemma lower_ascii_idem (c : ascii) :
  JS.lower_ascii (JS.lower_ascii c) = JS.lower_ascii c.
Proof.
  destruct c as [[] [] [] [] [] [] [] []]; reflexivity.
Qed.

Lemma toLowerCase_idem (s : string) :
  JS.toLowerCase (JS.toLowerCase s) = JS.toLowerCase s.
Proof.
  induction s as [|c s IH]; simpl; [reflexivity|].
  now rewrite lower_ascii_idem, IH.
Qed.

(** What the code tests, [lower(s).includes(t)] for a lower-case literal [t],
    is occurrence up to case. *)
Lemma includes_lower_iff (s t : string) :
  JS.toLowerCase t = t ->
  JS.includes (JS.toLowerCase s) t = true <-> ci_occurs t s.
Proof.
  intros Ht. rewrite includes_true_iff. unfold occurs, ci_occurs. split.
  - intros (pre & suf & H).
    destruct (toLowerCase_split _ _ _ H) as (s1 & s23 & -> & H1 & H23).
    destruct (toLowerCase_split _ _ _ H23) as (s2 & s3 & -> & H2 & H3).
    exists s1, s2, s3. split; [reflexivity | congruence].
  - intros (pre & u & suf & -> & Hu).
    exists (JS.toLowerCase pre), (JS.toLowerCase suf).
    rewrite !toLowerCase_app. congruence.
Qed.

(* ===================================================================== *)
(** ** Capability inference *)
(* ===================================================================== *)

Lemma or_str_empty (field : option string) :
  JS.or_str field EmptyString = text_of field.
Proof.
  destruct field as [s|]; simpl; [|reflexivity].
  now destruct s.
Qed.

Lemma capability_eqb_eq (a b : MediaCapability) :
  capability_eqb a b = true <-> a = b.
Proof. destruct a, b; simpl; split; congruence. Qed.

Lemma includes_capability_In (capabilities : list MediaCapability) (c : MediaCapability) :
  includes_capability capabilities c = true <-> In c capabilities.
Proof.
  unfold includes_capability, JS.array_includes. rewrite existsb_exists. split.
  - intros [x [Hin Heq]]. apply capability_eqb_eq in Heq. now subst.
  - intros Hin. exists c. split; [assumption | now apply capability_eqb_eq].
Qed.

(** The five tests of the method are the two tables, and the last test is
    the default. *)
Lemma inferCapabilitiesFromModel_filter (modelData : ModelData.t) :
  inferCapabilitiesFromModel modelData =
  match triggered_list modelData with
  | [] => [TEXT_TO_IMAGE]
  | l => l
  end.
Proof.
  unfold inferCapabilitiesFromModel, triggered_list, triggeredb.
  rewrite !or_str_empty.
  set (i := JS.toLowerCase (text_of (ModelData.id modelData))).
  set (d := JS.toLowerCase (text_of (ModelData.description modelData))).
  cbn [filter id_triggers description_triggers existsb].
  rewrite ?orb_false_r, ?orb_assoc.
  repeat match goal with
         | |- context [if (?a || ?b) then _ else _] => destruct (a || b)
         end; reflexivity.
Qed.

Lemma triggers_lower_case (c : MediaCapability) (t : string) :
  In t (id_triggers c) \/ In t (description_triggers c) \/ In t (spec_triggers c) ->
  JS.toLowerCase t = t.
Proof.
  destruct c; simpl; intros H;
    repeat match type of H with
           | _ \/ _ => destruct H as [H|H]
           | False => contradiction
           | _ = _ => subst t; reflexivity
           end.
Qed.

Lemma triggeredb_iff (c : MediaCapability) (modelData : ModelData.t) :
  triggeredb c modelData = true <-> triggered c modelData.
Proof.
  unfold triggeredb, triggered.
  rewrite orb_true_iff, !existsb_exists.
  assert (L : forall t, In t (id_triggers c) \/ In t (description_triggers c) ->
                        JS.toLowerCase t = t)
    by (intros t Ht; apply (triggers_lower_case c); tauto).
  split; (intros [[t [Hin H]] | [t [Hin H]]]; [left | right]); exists t;
    (split; [assumption|]); apply includes_lower_iff; auto.
Qed.

Lemma spec_matchesb_iff (c : MediaCapability) (modelData : ModelData.t) :
  spec_matchesb c modelData = true <-> spec_matches c modelData.
Proof.
  unfold spec_matchesb, spec_matches. rewrite existsb_exists.
  assert (L : forall t, In t (spec_triggers c) -> JS.toLowerCase t = t)
    by (intros t Ht; apply (triggers_lower_case c); tauto).
  split; intros [t [Hin H]]; exists t; (split; [assumption|]).
  - apply orb_true_iff in H.
    destruct H as [H|H]; [left | right]; apply includes_lower_iff; auto.
  - apply orb_true_iff.
    destruct H as [H|H]; [left | right]; apply includes_lower_iff; auto.
Qed.

(** Every substring the method looks for is in the specification's table. *)
Lemma triggered_spec_matches (c : MediaCapability) (modelData : ModelData.t) :
  triggered c modelData -> spec_matches c modelData.
Proof.
  intros [[t [Hin H]] | [t [Hin H]]]; exists t; (split; [|tauto]);
    destruct c; simpl in *; tauto.
Qed.

Lemma In_triggered_list (c : MediaCapability) (modelData : ModelData.t) :
  In c (triggered_list modelData) <-> triggered c modelData.
Proof.
  unfold triggered_list. rewrite filter_In, triggeredb_iff. split.
  - tauto.
  - intros H. split; [|assumption].
    destruct c; simpl; try tauto.
    (* video-to-video has no trigger *)
    destruct H as [[t [[] _]] | [t [[] _]]].
Qed.

Lemma triggered_list_nil (modelData : ModelData.t) :
  triggered_list modelData = [] <-> forall c, ~ triggered c modelData.
Proof.
  split.
  - intros E c H. apply In_triggered_list in H. now rewrite E in H.
  - intros H. destruct (triggered_list modelData) as [|c l] eqn:E; [reflexivity|].
    exfalso. apply (H c), In_triggered_list. rewrite E. now left.
Qed.

Lemma inferCapabilitiesFromModel_default (modelData : ModelData.t) :
  (forall c, ~ triggered c modelData) ->
  inferCapabilitiesFromModel modelData = [TEXT_TO_IMAGE].
Proof.
  intros H. apply triggered_list_nil in H.
  now rewrite inferCapabilitiesFromModel_filter, H.
Qed.

Lemma inferCapabilitiesFromModel_nonempty (modelData : ModelData.t) :
  inferCapabilitiesFromModel modelData <> [].
Proof.
  rewrite inferCapabilitiesFromModel_filter.
  destruct (triggered_list modelData); discriminate.
Qed.

(** C2, as amended.  A capability is in the output of the classifier exactly
    when it is triggered: one of its identifier substrings occurs in the
    identifier, or one of its description substrings occurs in the
    description, up to the case of ASCII letters; or when it is text-to-image
    and no capability is triggered at all.  All triggered capabilities are
    in the output together. *)
Theorem inferCapabilitiesFromModel_characterised :
  forall (modelData : ModelData.t) (c : MediaCapability),
    In c (inferCapabilitiesFromModel modelData) <->
    triggered c modelData \/
    (c = TEXT_TO_IMAGE /\ forall c', ~ triggered c' modelData).
Proof.
  intros modelData c. rewrite inferCapabilitiesFromModel_filter.
  destruct (triggered_list modelData) as [|c0 l] eqn:E.
  - pose proof (proj1 (triggered_list_nil modelData) E) as Hnone. split.
    + intros [<- | []]. right. split; [reflexivity | assumption].
    + intros [H | [-> _]]; [now apply Hnone in H | now left].
  - rewrite <- E, In_triggered_list. split; [tauto|].
    intros [H | [_ Hnone]]; [assumption|].
    exfalso. apply (Hnone c0), In_triggered_list. rewrite E. now left.
Qed.

(** C2, as stated, fails: with the identifier [acme/widget] and the
    description [Video generation with flux], the substring [flux] of the
    text-to-image row occurs in the description, yet the output is
    text-to-video alone. *)
Lemma inferCapabilitiesFromModel_not_spec_table :
  ~ (forall (modelData : ModelData.t) (c : MediaCapability),
       In c (inferCapabilitiesFromModel modelData) <-> spec_matches c modelData).
Proof.
  intros H.
  pose (modelData :=
          ModelData.mk (Some "acme/widget") None
            (Some "Video generation with flux") None).
  assert (Hm : spec_matches TEXT_TO_IMAGE modelData)
    by (apply spec_matchesb_iff; vm_compute; reflexivity).
  apply (H modelData TEXT_TO_IMAGE) in Hm.
  vm_compute in Hm.
  destruct Hm as [Hm | []]. discriminate Hm.
Qed.

(* ===================================================================== *)
(** ** The insertion-ordered map *)
(* ===================================================================== *)

Section MapFacts.
Context {V : Type}.
Implicit Types (m : JsMap.t V) (k : string) (v : V).

Lemma get_None_iff m k : JsMap.get m k = None <-> ~ In k (JsMap.keys m).
Proof.
  induction m as [|[k' v'] m IH]; simpl.
  - tauto.
  - destruct (String.eqb_spec k' k) as [->|Hne].
    + split; [discriminate | intros H; exfalso; apply H; now left].
    + rewrite IH. tauto.
Qed.

Lemma has_false_iff m k : JsMap.has m k = false <-> ~ In k (JsMap.keys m).
Proof.
  unfold JsMap.has. rewrite <- get_None_iff.
  destruct (JsMap.get m k); split; congruence.
Qed.

Lemma has_true_iff m k : JsMap.has m k = true <-> In k (JsMap.keys m).
Proof.
  unfold JsMap.has. pose proof (get_None_iff m k) as H.
  destruct (JsMap.get m k) eqn:E; split; intros H'; try congruence.
  - destruct (in_dec string_dec k (JsMap.keys m)) as [Hin|Hnin]; [assumption|].
    apply H in Hnin. discriminate.
  - exfalso. now apply (proj1 H).
Qed.

(** Setting a key the map does not have appends the entry. *)
Lemma set_new m k v : JsMap.has m k = false -> JsMap.set m k v = (m ++ [(k, v)])%list.
Proof.
  unfold JsMap.has. induction m as [|[k' v'] m IH]; simpl; [reflexivity|].
  destruct (String.eqb k' k); [discriminate|].
  intros H. now rewrite IH.
Qed.

Lemma get_app_new m k v k0 :
  JsMap.get (m ++ [(k, v)])%list k0 =
  match JsMap.get m k0 with
  | Some v0 => Some v0
  | None => if String.eqb k k0 then Some v else None
  end.
Proof.
  induction m as [|[k' v'] m IH]; simpl; [reflexivity|].
  now destruct (String.eqb k' k0).
Qed.

Lemma get_Some_In m k v : JsMap.get m k = Some v -> In (k, v) m.
Proof.
  induction m as [|[k' v'] m IH]; simpl; [discriminate|].
  destruct (String.eqb_spec k' k) as [->|Hne].
  - intros [= ->]. now left.
  - intros H. right. now apply IH.
Qed.

End MapFacts.

(* ===================================================================== *)
(** ** Path segments *)
(* ===================================================================== *)

Lemma split_slash_cons (s : string) :
  exists seg segs, JS.split_slash s = seg :: segs.
Proof.
  induction s as [|c s (seg & segs & IH)]; simpl; [now eexists; eexists|].
  destruct (Ascii.eqb c "/"); [now eexists; eexists|].
  rewrite IH. now eexists; eexists.
Qed.

Lemma pop_cons_cons (x y : string) (l : list string) :
  JS.pop (x :: y :: l) = JS.pop (y :: l).
Proof. reflexivity. Qed.

(** Without a slash there is one segment. *)
Lemma split_slash_no_slash (s : string) :
  no_slash s = true -> JS.split_slash s = [s].
Proof.
  induction s as [|c s IH]; simpl; [reflexivity|].
  destruct (Ascii.eqb c "/"); simpl; [discriminate|].
  intros H. now rewrite (IH H).
Qed.

(** A character put in front changes the last segment only when there is a
    single segment. *)
Lemma pop_split_slash_String (c : ascii) (s : string) :
  JS.pop (JS.split_slash (String c s)) =
  match JS.split_slash s with
  | [seg] => if Ascii.eqb c "/" then Some seg else Some (String c seg)
  | segs => JS.pop segs
  end.
Proof.
  simpl. destruct (split_slash_cons s) as (seg & segs & E). rewrite E.
  destruct (Ascii.eqb c "/"); destruct segs; reflexivity.
Qed.

(** A string with a slash has two segments at least. *)
Lemma split_slash_two (pre seg : string) :
  exists x y l, JS.split_slash (pre ++ String "/" seg) = x :: y :: l.
Proof.
  induction pre as [|c pre (x & y & l & IH)]; simpl.
  - destruct (split_slash_cons seg) as (x & l & ->). now do 3 eexists.
  - rewrite IH. destruct (Ascii.eqb c "/"); now do 3 eexists.
Qed.

Lemma pop_split_slash_after (pre seg : string) :
  JS.pop (JS.split_slash (pre ++ String "/" seg)) = JS.pop (JS.split_slash seg).
Proof.
  induction pre as [|c pre IH].
  - simpl. destruct (split_slash_cons seg) as (x & l & E). now rewrite E.
  - change (String c pre ++ String "/" seg) with (String c (pre ++ String "/" seg)).
    rewrite pop_split_slash_String, <- IH.
    destruct (split_slash_two pre seg) as (x & y & l & ->). reflexivity.
Qed.

(** [id.split('/').pop()] is the trailing segment. *)
Lemma pop_split_slash_trailing (s : string) :
  exists seg, JS.pop (JS.split_slash s) = Some seg /\ trailing_segment s seg.
Proof.
  induction s as [|c s (seg & IH & Hns & Hseg)].
  - exists EmptyString. repeat split. now left.
  - rewrite pop_split_slash_String. destruct Hseg as [->|[pre ->]].
    + rewrite (split_slash_no_slash _ Hns) in *. clear IH.
      destruct (Ascii.eqb_spec c "/") as [->|Hne].
      * exists seg. repeat split; [assumption|]. right. now exists EmptyString.
      * exists (String c seg). repeat split; [|now left].
        simpl. rewrite Hns. now destruct (Ascii.eqb_spec c "/").
    + destruct (split_slash_two pre seg) as (x & y & l & E). rewrite E in *.
      exists seg. repeat split; try assumption. right. now exists (String c pre).
Qed.

(** The trailing segment is unique. *)
Lemma trailing_segment_pop (s seg : string) :
  trailing_segment s seg -> JS.pop (JS.split_slash s) = Some seg.
Proof.
  intros [Hns [->|[pre ->]]].
  - now rewrite (split_slash_no_slash _ Hns).
  - now rewrite pop_split_slash_after, (split_slash_no_slash _ Hns).
Qed.

(* ===================================================================== *)
(** ** Discovery merge *)
(* ===================================================================== *)

Lemma given_truthy (field : option string) (s : string) :
  given field s -> JS.or_str field = fun _ => s.
Proof.
  intros [-> Hs]. unfold JS.or_str. destruct s; [contradiction | reflexivity].
Qed.

Lemma not_given_or_str (field : option string) (fallback : string) :
  not_given field -> JS.or_str field fallback = fallback.
Proof. intros [-> | ->]; reflexivity. Qed.

Lemma discoverOne_skip (catalog : Catalog) (modelData : ModelData.t) :
  not_given (ModelData.id modelData) -> discoverOne catalog modelData = catalog.
Proof. unfold discoverOne. intros [-> | ->]; reflexivity. Qed.

Lemma discoverOne_known (catalog : Catalog) (modelData : ModelData.t) (id : string) :
  given (ModelData.id modelData) id -> In id (JsMap.keys catalog) ->
  discoverOne catalog modelData = catalog.
Proof.
  intros [E Hne] Hin. unfold discoverOne. rewrite E.
  apply has_true_iff in Hin. rewrite Hin.
  destruct id; [contradiction | reflexivity].
Qed.

Lemma discoverOne_new (catalog : Catalog) (modelData : ModelData.t) (id : string) :
  given (ModelData.id modelData) id -> absent id catalog ->
  discoverOne catalog modelData =
  (catalog ++ [(id, discoveredProviderModel id modelData)])%list.
Proof.
  intros [E Hne] Habs. unfold discoverOne. rewrite E.
  apply has_false_iff in Habs. rewrite Habs, (set_new _ _ _ Habs).
  destruct id; [contradiction | reflexivity].
Qed.

(** One iteration never changes the entry of a key the catalog has. *)
Lemma discoverOne_keeps (catalog : Catalog) (modelData : ModelData.t)
  (k : string) (v : ProviderModel.t) :
  JsMap.get catalog k = Some v ->
  JsMap.get (discoverOne catalog modelData) k = Some v.
Proof.
  intros H. unfold discoverOne.
  destruct (ModelData.id modelData) as [id|]; [|assumption].
  destruct (JS.truthy id); simpl; [|assumption].
  destruct (JsMap.has catalog id) eqn:E; simpl; [assumption|].
  now rewrite (set_new _ _ _ E), get_app_new, H.
Qed.

Lemma discoverAll_keeps (models : list ModelData.t) (catalog : Catalog)
  (k : string) (v : ProviderModel.t) :
  JsMap.get catalog k = Some v ->
  JsMap.get (discoverAll models catalog) k = Some v.
Proof.
  unfold discoverAll. revert catalog.
  induction models as [|modelData models IH]; intros catalog H; simpl.
  - assumption.
  - now apply IH, discoverOne_keeps.
Qed.

(** The entries of a catalog after one iteration are the old ones and, at
    most, one built by [discoveredProviderModel]. *)
Lemma discoverOne_entries (catalog : Catalog) (modelData : ModelData.t)
  (k : string) (v : ProviderModel.t) :
  In (k, v) (discoverOne catalog modelData) ->
  In (k, v) catalog \/ v = discoveredProviderModel k modelData.
Proof.
  unfold discoverOne.
  destruct (ModelData.id modelData) as [id|]; [|tauto].
  destruct (JS.truthy id); simpl; [|tauto].
  destruct (JsMap.has catalog id) eqn:E; simpl; [tauto|].
  rewrite (set_new _ _ _ E), in_app_iff. simpl.
  intros [H | [[= <- <-] | []]]; tauto.
Qed.

(** C1, as amended.  In one iteration of the merge: a record without an
    identifier (missing or empty) leaves the catalog as it is; a record whose
    identifier is a key of the catalog leaves the whole catalog as it is; any
    other record appends one entry under its identifier, whose name is the
    record's name when given and else the trailing path segment of the
    identifier, or the whole identifier when that segment is empty; whose
    description is the record's when given and else the template with the
    identifier; whose capabilities are the classifier's; and whose parameters
    are the record's, or empty.  Over a whole listing, every entry the
    catalog had is still there, unchanged. *)
Theorem discovery_merge_rule :
  forall (catalog : Catalog) (modelData : ModelData.t),
    (not_given (ModelData.id modelData) ->
     discoverOne catalog modelData = catalog) /\
    (forall id, given (ModelData.id modelData) id -> In id (JsMap.keys catalog) ->
                discoverOne catalog modelData = catalog) /\
    (forall id,
        given (ModelData.id modelData) id -> absent id catalog ->
        exists entry,
          discoverOne catalog modelData = (catalog ++ [(id, entry)])%list /\
          ProviderModel.id entry = id /\
          (forall n, given (ModelData.name modelData) n ->
                     ProviderModel.name entry = n) /\
          (not_given (ModelData.name modelData) ->
           forall seg, trailing_segment id seg ->
                       ProviderModel.name entry = if JS.truthy seg then seg else id) /\
          (forall d, given (ModelData.description modelData) d ->
                     ProviderModel.description entry = d) /\
          (not_given (ModelData.description modelData) ->
           ProviderModel.description entry = "Replicate model: " ++ id) /\
          ProviderModel.capabilities entry = inferCapabilitiesFromModel modelData /\
          (forall p, ModelData.parameters modelData = Some p ->
                     ProviderModel.parameters entry = p) /\
          (ModelData.parameters modelData = None ->
           ProviderModel.parameters entry = [])) /\
    (forall models k v,
        JsMap.get catalog k = Some v ->
        JsMap.get (discoverAll (modelData :: models) catalog) k = Some v).
Proof.
  intros catalog modelData. split; [apply discoverOne_skip|].
  split; [apply discoverOne_known|]. split.
  - intros id Hid Habs. exists (discoveredProviderModel id modelData).
    split; [now apply discoverOne_new|]. split; [reflexivity|]. simpl.
    split; [intros n Hn; now rewrite (given_truthy Hn)|].
    split.
    { intros Hn seg Hseg. rewrite (not_given_or_str _ Hn).
      rewrite (trailing_segment_pop Hseg). simpl. now destruct seg. }
    split; [intros d Hd; now rewrite (given_truthy Hd)|].
    split; [intros Hd; now rewrite (not_given_or_str _ Hd)|].
    split; [reflexivity|].
    split; [intros p -> | intros ->]; reflexivity.
  - intros models k v H. now apply discoverAll_keeps.
Qed.

(** Bootstrap wins: a record with the identifier of a known model and another
    name leaves the catalog of a new provider as it is. *)
Lemma discovery_merge_rule_witness :
  discoverOne (discoveredModels (new_ReplicateProvider None))
    (ModelData.mk (Some "black-forest-labs/flux-schnell") (Some "Flux Fast")
       None None)
  = discoveredModels (new_ReplicateProvider None).
Proof.
  apply (proj1 (proj2 (discovery_merge_rule _ _)) "black-forest-labs/flux-schnell").
  - split; [reflexivity | discriminate].
  - vm_compute. left. reflexivity.
Defined.

(** C1, as stated, fails on the name: for the identifier [acme/] the trailing
    path segment is empty, and the entry is named [acme/]. *)
Lemma discovered_name_not_always_trailing_segment :
  ~ (forall (catalog : Catalog) (modelData : ModelData.t) (id seg : string),
       given (ModelData.id modelData) id -> absent id catalog ->
       ModelData.name modelData = None ->
       trailing_segment id seg ->
       exists entry,
         JsMap.get (discoverOne catalog modelData) id = Some entry /\
         ProviderModel.name entry = seg).
Proof.
  intros H.
  destruct (H [] (ModelData.mk (Some "acme/") None None None) "acme/" EmptyString)
    as (entry & Hget & Hname).
  - split; [reflexivity | discriminate].
  - intros [].
  - reflexivity.
  - split; [reflexivity|]. right. now exists "acme".
  - vm_compute in Hget. injection Hget as <-. discriminate Hname.
Qed.

(* ===================================================================== *)
(** ** Construction and the bootstrap catalog *)
(* ===================================================================== *)

(** The catalog the constructor builds, whatever the environment. *)
Lemma new_discoveredModels (token : option string) :
  discoveredModels (new_ReplicateProvider token) =
  map (fun modelDef => (def_id modelDef, knownProviderModel modelDef)) knownModels.
Proof. destruct token as [[|c s]|]; reflexivity. Qed.

Lemma new_client_None (token : option string) :
  not_given token -> client (new_ReplicateProvider token) = None.
Proof. intros [-> | ->]; reflexivity. Qed.

Lemma new_configured (apiKey : string) :
  JS.truthy apiKey = true ->
  let this := new_ReplicateProvider (Some apiKey) in
  client this = Some {| clientConfig := ReplicateConfig.mk apiKey 600000 2 |} /\
  config this = Some (ProviderConfig.mk (Some apiKey) None None) /\
  listing this = Pending /\ discoveryPromise this = Pending /\
  timeoutPromise this = Pending /\ background this = Pending.
Proof. destruct apiKey; [discriminate|]. intros _. repeat split. Qed.

(* ===================================================================== *)
(** ** Methods that only read *)
(* ===================================================================== *)

Lemma getModelsForCapability_reads (c : MediaCapability) (this : ReplicateProvider) :
  snd (getModelsForCapability c this) = this.
Proof. reflexivity. Qed.

Lemma supportsModel_reads (modelId : string) (c : MediaCapability)
  (this : ReplicateProvider) :
  snd (supportsModel modelId c this) = this.
Proof. reflexivity. Qed.

Lemma resolveModel_reads (modelId : string) (this : ReplicateProvider) :
  snd (resolveModel modelId this) = this.
Proof.
  unfold resolveModel, bind, read. simpl.
  now destruct (JsMap.get (discoveredModels this) modelId).
Qed.

Lemma getModelMetadata_reads remote (modelId : string) (this : ReplicateProvider) :
  snd (getModelMetadata remote modelId this) = this.
Proof.
  unfold getModelMetadata, bind, read. simpl.
  destruct (client this); [|reflexivity]. simpl.
  destruct (JsMap.get (discoveredModels this) modelId); reflexivity.
Qed.

Lemma getReplicateClient_reads (this : ReplicateProvider) :
  snd (getReplicateClient this) = this.
Proof.
  unfold getReplicateClient, bind, read. simpl.
  destruct (config this) as [cfg|]; [|reflexivity].
  destruct (ProviderConfig.apiKey cfg) as [k|]; [|reflexivity].
  destruct (JS.truthy k); reflexivity.
Qed.

Lemma createModel_reads remote wrapper (modelId : string) (this : ReplicateProvider) :
  snd (createModel remote wrapper modelId this) = this.
Proof.
  unfold createModel, bind, read. simpl.
  destruct (client this); [|reflexivity].
  pose proof (getModelMetadata_reads remote modelId this) as Hm.
  destruct (getModelMetadata remote modelId this) as [[md|e] this1];
    simpl in Hm; subst this1; [|reflexivity].
  pose proof (getReplicateClient_reads this) as Hr.
  destruct (getReplicateClient this) as [[rc|e] this2];
    simpl in Hr; subst this2; reflexivity.
Qed.

Lemma dispatch_reads remote capabilities (modelId : string) (this : ReplicateProvider) :
  snd (dispatch remote capabilities modelId this) = this.
Proof.
  unfold dispatch, createTextToImageModel, createTextToVideoModel,
    createTextToAudioModel.
  repeat match goal with
         | |- context [if ?b then _ else _] => destruct b
         end; apply createModel_reads.
Qed.

Lemma getModel_reads remote (modelId : string) (this : ReplicateProvider) :
  snd (getModel remote modelId this) = this.
Proof.
  unfold getModel, bind, read. simpl.
  destruct (client this); [|reflexivity].
  pose proof (resolveModel_reads modelId this) as Hm.
  destruct (resolveModel modelId this) as [[m|e] this1];
    simpl in Hm; subst this1; [|reflexivity].
  apply dispatch_reads.
Qed.

(** [configure] writes [config] and [client] and nothing else. *)
Lemma configure_writes (cfg : ProviderConfig.t) (this : ReplicateProvider) :
  let this' := snd (configure cfg this) in
  discoveredModels this' = discoveredModels this /\
  listing this' = listing this /\
  discoveryPromise this' = discoveryPromise this /\
  timeoutPromise this' = timeoutPromise this /\
  background this' = background this /\
  config this' = Some cfg.
Proof.
  unfold configure, bind, write, throw. simpl.
  destruct (ProviderConfig.apiKey cfg) as [k|]; [|repeat split].
  destruct (JS.truthy k); repeat split.
Qed.

(* ===================================================================== *)
(** ** Events *)
(* ===================================================================== *)

Lemma discoverModelsInBackground_resume_Ok (raced : Result unit)
  (this : ReplicateProvider) :
  discoverModelsInBackground_resume raced this = (Ok tt, this).
Proof. destruct raced as [[]|e]; reflexivity. Qed.

Lemma performModelDiscovery_resume_eq (listed : Result ListResponse)
  (this : ReplicateProvider) :
  performModelDiscovery_resume listed this =
  (Ok tt,
   match listed with
   | Ok response =>
       set_discoveredModels
         (discoverAll (records response) (discoveredModels this)) this
   | Throw _ => this
   end).
Proof. destruct listed; reflexivity. Qed.

Lemma race_settled_eq (raced : Result unit) (this : ReplicateProvider) :
  race_settled raced this =
  match background this with
  | Pending => set_background Fulfilled this
  | _ => this
  end.
Proof.
  unfold race_settled. rewrite discoverModelsInBackground_resume_Ok.
  now destruct (background this).
Qed.

(** What an event does to the catalog: only a listing that resolves while
    [performModelDiscovery] awaits it changes anything, and it merges. *)
Lemma on_event_discoveredModels (this : ReplicateProvider) (ev : Event) :
  discoveredModels (on_event this ev) =
  match ev, listing this with
  | ListingResolved response, Pending =>
      discoverAll (records response) (discoveredModels this)
  | _, _ => discoveredModels this
  end.
Proof.
  destruct ev as [response|error|]; simpl.
  - unfold listing_settled. destruct (listing this) eqn:E; try reflexivity.
    rewrite performModelDiscovery_resume_eq, race_settled_eq. simpl.
    now destruct (background this).
  - unfold listing_settled. destruct (listing this) eqn:E; try reflexivity.
    rewrite performModelDiscovery_resume_eq, race_settled_eq. simpl.
    now destruct (background this).
  - unfold timer_fired. destruct (timeoutPromise this); try reflexivity.
    rewrite race_settled_eq. simpl. now destruct (background this).
Qed.

Lemma on_event_fields (this : ReplicateProvider) (ev : Event) :
  client (on_event this ev) = client this /\
  config (on_event this ev) = config this.
Proof.
  destruct ev as [response|error|]; simpl;
    unfold listing_settled, timer_fired;
    try (destruct (listing this); try (split; reflexivity);
         rewrite performModelDiscovery_resume_eq, race_settled_eq; simpl;
         destruct (background this); split; reflexivity).
  destruct (timeoutPromise this); try (split; reflexivity).
  rewrite race_settled_eq; simpl. destruct (background this); split; reflexivity.
Qed.

(** An event leaves the promise of the background discovery, and that of
    [performModelDiscovery], as it was or fulfils it. *)
Lemma on_event_promises (this : ReplicateProvider) (ev : Event) :
  (background (on_event this ev) = background this \/
   background (on_event this ev) = Fulfilled) /\
  (discoveryPromise (on_event this ev) = discoveryPromise this \/
   discoveryPromise (on_event this ev) = Fulfilled).
Proof.
  destruct ev as [response|error|]; simpl; unfold listing_settled, timer_fired.
  - destruct (listing this); try (split; left; reflexivity).
    rewrite performModelDiscovery_resume_eq, race_settled_eq. simpl.
    destruct (background this) eqn:E; simpl; split; auto.
  - destruct (listing this); try (split; left; reflexivity).
    rewrite performModelDiscovery_resume_eq, race_settled_eq. simpl.
    destruct (background this) eqn:E; simpl; split; auto.
  - destruct (timeoutPromise this); try (split; left; reflexivity).
    rewrite race_settled_eq. simpl.
    destruct (background this) eqn:E; simpl; split; auto.
Qed.

(* ===================================================================== *)
(** ** Invariants of the reachable states *)
(* ===================================================================== *)

Lemma reachable_not_rejected (this : ReplicateProvider) :
  reachable this ->
  forall e, background this <> Rejected e /\ discoveryPromise this <> Rejected e.
Proof.
  induction 1 as [token | this ev _ IH | this cfg _ IH | this remote modelId _ IH
                  | this c _ IH | this modelId c _ IH]; intros e.
  - destruct token as [[|c s]|]; split; discriminate.
  - destruct (on_event_promises this ev) as [[-> | ->] [-> | ->]];
      split; try discriminate; apply IH.
  - destruct (configure_writes cfg this) as (_ & _ & -> & _ & -> & _). apply IH.
  - rewrite getModel_reads. apply IH.
  - apply IH.
  - apply IH.
Qed.

Lemma discoverAll_entries (models : list ModelData.t) (catalog : Catalog)
  (k : string) (v : ProviderModel.t) :
  In (k, v) (discoverAll models catalog) ->
  In (k, v) catalog \/ exists modelData, v = discoveredProviderModel k modelData.
Proof.
  unfold discoverAll. revert catalog.
  induction models as [|modelData models IH]; intros catalog H; simpl in H.
  - now left.
  - destruct (IH _ H) as [Hin | Hex]; [|now right].
    destruct (discoverOne_entries _ _ _ _ Hin) as [Hold | ->]; [now left|].
    right. now exists modelData.
Qed.

(** Every entry of a reachable catalog was put there by the bootstrap or
    built from a discovered record. *)
Lemma reachable_entries (this : ReplicateProvider) :
  reachable this ->
  forall k v, In (k, v) (discoveredModels this) ->
              (exists modelDef, In modelDef knownModels /\ v = knownProviderModel modelDef) \/
              (exists modelData, v = discoveredProviderModel k modelData).
Proof.
  induction 1 as [token | this ev _ IH | this cfg _ IH | this remote modelId _ IH
                  | this c _ IH | this modelId c _ IH]; intros k v Hin.
  - rewrite new_discoveredModels in Hin. apply in_map_iff in Hin.
    destruct Hin as (modelDef & [= <- <-] & Hdef). left. now exists modelDef.
  - rewrite on_event_discoveredModels in Hin.
    destruct ev as [response|error|]; try (now apply IH).
    destruct (listing this); try (now apply IH).
    apply discoverAll_entries in Hin. destruct Hin as [Hin | Hex]; [|now right].
    now apply IH.
  - destruct (configure_writes cfg this) as (E & _). rewrite E in Hin. now apply IH.
  - rewrite getModel_reads in Hin. now apply IH.
  - now apply IH.
  - now apply IH.
Qed.

(** Once present, an entry stays, unchanged. *)
Lemma on_event_keeps (this : ReplicateProvider) (ev : Event)
  (k : string) (v : ProviderModel.t) :
  JsMap.get (discoveredModels this) k = Some v ->
  JsMap.get (discoveredModels (on_event this ev)) k = Some v.
Proof.
  intros H. rewrite on_event_discoveredModels.
  destruct ev as [response|error|]; try assumption.
  destruct (listing this); try assumption.
  now apply discoverAll_keeps.
Qed.

Lemma reachable_keeps_bootstrap (this : ReplicateProvider) :
  reachable this ->
  forall k v, JsMap.get (discoveredModels (new_ReplicateProvider None)) k = Some v ->
              JsMap.get (discoveredModels this) k = Some v.
Proof.
  induction 1 as [token | this ev _ IH | this cfg _ IH | this remote modelId _ IH
                  | this c _ IH | this modelId c _ IH]; intros k v H.
  - now rewrite new_discoveredModels in *.
  - now apply on_event_keeps, IH.
  - destruct (configure_writes cfg this) as (E & _). rewrite E. now apply IH.
  - rewrite getModel_reads. now apply IH.
  - now apply IH.
  - now apply IH.
Qed.

(** While the listing call has not settled, the catalog does not move, and
    once the timer has fired the background discovery has returned. *)
Lemma run_listing_unsettled (events : list Event) (this : ReplicateProvider) :
  forallb (fun ev => negb (settles_listing ev)) events = true ->
  discoveredModels (run events this) = discoveredModels this /\
  listing (run events this) = listing this /\
  (timeoutPromise this = Pending -> background this = Pending ->
   In TimerFired events -> background (run events this) = Fulfilled) /\
  (background this = Fulfilled -> background (run events this) = Fulfilled).
Proof.
  unfold run. revert this.
  induction events as [|ev events IH]; intros this Hev; simpl.
  - repeat split; tauto.
  - simpl in Hev. apply andb_true_iff in Hev. destruct Hev as [Hev Hevs].
    destruct ev as [response|error|]; try discriminate. clear Hev.
    change (on_event this TimerFired) with (timer_fired this).
    destruct (IH (timer_fired this) Hevs) as (Hcat & Hlist & Htimer & Hdone).
    assert (Hstep : discoveredModels (timer_fired this) = discoveredModels this /\
                    listing (timer_fired this) = listing this /\
                    (timeoutPromise this = Pending -> background this = Pending ->
                     background (timer_fired this) = Fulfilled) /\
                    (background this = Fulfilled ->
                     background (timer_fired this) = Fulfilled)).
    { unfold timer_fired. destruct (timeoutPromise this) eqn:Et;
        try (repeat split; (discriminate || tauto)).
      rewrite race_settled_eq. simpl.
      destruct (background this) eqn:Eb; repeat split; (discriminate || tauto). }
    destruct Hstep as (S1 & S2 & S3 & S4).
    rewrite Hcat, Hlist. repeat split; try assumption.
    + intros Ht Hb _. apply Hdone. now apply S3.
    + intros Hb. apply Hdone. now apply S4.
Qed.

(* ===================================================================== *)
(** ** Bootstrap *)
(* ===================================================================== *)

(** C6.  Whatever the environment, the catalog of a new provider lists
    exactly the fourteen fixed models written out below, in this order, each
    with the identifier, name, description and capability given there and
    with the shared parameter schema written out below, each stored under
    its identifier; this is one entry per element of the fixed list; each
    entry has a capability; the schema is the one the specification gives;
    and the list stays so under all events as long as no listing has
    resolved. *)
Theorem bootstrap_catalog :
  forall (token : option string),
    let this := new_ReplicateProvider token in
    let schema : Parameters :=
      [("prompt", ParamSpec.mk (Some "string") (Some "Text prompt for generation")
                    None None None);
       ("width", ParamSpec.mk (Some "number") None
                    (Some 128%Q) (Some 2048%Q) (Some 1024%Q));
       ("height", ParamSpec.mk (Some "number") None
                    (Some 128%Q) (Some 2048%Q) (Some 1024%Q));
       ("num_inference_steps", ParamSpec.mk (Some "number") None
                    (Some 1%Q) (Some 100%Q) (Some 50%Q));
       ("guidance_scale", ParamSpec.mk (Some "number") None
                    (Some 0%Q) (Some 20%Q) (Some 7.5%Q))] in
    models this =
      [
       ProviderModel.mk "black-forest-labs/flux-schnell"
         "FLUX.1 Schnell"
         "Fast and high-quality text-to-image generation"
         [TEXT_TO_IMAGE] schema;
       ProviderModel.mk "black-forest-labs/flux-dev"
         "FLUX.1 Dev"
         "FLUX.1 development model for text-to-image"
         [TEXT_TO_IMAGE] schema;
       ProviderModel.mk "stability-ai/sdxl"
         "Stable Diffusion XL"
         "Stable Diffusion XL for high-quality images"
         [TEXT_TO_IMAGE] schema;
       ProviderModel.mk "bytedance/sdxl-lightning-4step"
         "SDXL Lightning"
         "Ultra-fast SDXL in 4 steps"
         [TEXT_TO_IMAGE] schema;
       ProviderModel.mk "playgroundai/playground-v2.5-1024px-aesthetic"
         "Playground v2.5"
         "Aesthetic-focused image generation"
         [TEXT_TO_IMAGE] schema;
       ProviderModel.mk "lumalabs/dream-machine"
         "Luma Dream Machine"
         "High-quality text-to-video generation"
         [TEXT_TO_VIDEO] schema;
       ProviderModel.mk "minimax/video-01"
         "MiniMax Video-01"
         "Advanced text-to-video model"
         [TEXT_TO_VIDEO] schema;
       ProviderModel.mk "genmo/mochi-1-preview"
         "Mochi-1 Preview"
         "High-quality video generation model"
         [TEXT_TO_VIDEO] schema;
       ProviderModel.mk "meta/musicgen"
         "MusicGen"
         "Meta's music generation model"
         [TEXT_TO_AUDIO] schema;
       ProviderModel.mk "suno-ai/bark"
         "Bark"
         "Text-to-speech with voice cloning"
         [TEXT_TO_AUDIO] schema;
       ProviderModel.mk "afiaka87/tortoise-tts"
         "Tortoise TTS"
         "High-quality text-to-speech"
         [TEXT_TO_AUDIO] schema;
       ProviderModel.mk "nightmareai/real-esrgan"
         "Real-ESRGAN"
         "Image upscaling and enhancement"
         [IMAGE_TO_IMAGE] schema;
       ProviderModel.mk "tencentarc/gfpgan"
         "GFPGAN"
         "Face restoration and enhancement"
         [IMAGE_TO_IMAGE] schema;
       ProviderModel.mk "stability-ai/stable-video-diffusion"
         "Stable Video Diffusion"
         "Generate videos from images"
         [IMAGE_TO_VIDEO] schema
      ] /\
    JsMap.keys (discoveredModels this) =
      map (fun model => ProviderModel.id model) (models this) /\
    length (models this) = 14%nat /\
    models this = map knownProviderModel knownModels /\
    JsMap.keys (discoveredModels this) = map def_id knownModels /\
    JsMap.size (discoveredModels this) = length knownModels /\
    length knownModels = 14%nat /\
    Forall (fun model =>
              ProviderModel.capabilities model <> [] /\
              ProviderModel.parameters model = knownParameters)
           (models this) /\
    map schema_row knownParameters = spec_default_schema /\
    (forall events,
        forallb (fun ev => negb (settles_listing ev)) events = true ->
        models (run events this) = models this).
Proof.
  intros token this schema. unfold models, this, schema.
  assert (E := new_discoveredModels token).
  split; [rewrite E; vm_compute; reflexivity|].
  split; [rewrite E; vm_compute; reflexivity|].
  split; [rewrite E; reflexivity|].
  split; [rewrite E; reflexivity|].
  split; [rewrite E; reflexivity|].
  split; [rewrite E; reflexivity|].
  split; [reflexivity|].
  split; [rewrite E; vm_compute; repeat constructor; discriminate|].
  split; [reflexivity|].
  intros events Hev.
  now rewrite (proj1 (run_listing_unsettled events _ Hev)).
Qed.

Lemma bootstrap_catalog_witness :
  models (run [TimerFired] (new_ReplicateProvider (Some "r8_token"))) =
  models (new_ReplicateProvider (Some "r8_token")).
Proof.
  apply (bootstrap_catalog (Some "r8_token")). reflexivity.
Defined.

(* ===================================================================== *)
(** ** The timeout race *)
(* ===================================================================== *)

(** C3, as amended.  For a provider built with a credential, as long as the
    listing call has not settled the catalog is the bootstrap one, of size
    fourteen, also after the timer has fired, and the background discovery
    has then returned normally.  The timer only ends the wait: a listing that
    resolves afterwards is still merged into the catalog by the rule of the
    merge.  In no reachable state is the promise of the background discovery,
    or that of the discovery proper, rejected. *)
Theorem discovery_timeout :
  forall (apiKey : string) (events : list Event) (response : ListResponse),
    JS.truthy apiKey = true ->
    forallb (fun ev => negb (settles_listing ev)) events = true ->
    let this := run events (new_ReplicateProvider (Some apiKey)) in
    models this = map knownProviderModel knownModels /\
    length (models this) = 14%nat /\
    (In TimerFired events -> background this = Fulfilled) /\
    discoveredModels (on_event this (ListingResolved response)) =
      discoverAll (records response) (discoveredModels this) /\
    (forall st, reachable st ->
                forall e, background st <> Rejected e /\
                          discoveryPromise st <> Rejected e).
Proof.
  intros apiKey events response Hkey Hev this.
  destruct (run_listing_unsettled events (new_ReplicateProvider (Some apiKey)) Hev)
    as (Hcat & Hlist & Htimer & _).
  destruct (new_configured apiKey Hkey) as (_ & _ & Hl & _ & Ht & Hb).
  fold this in Hcat, Hlist, Htimer.
  assert (Hm : models this = map knownProviderModel knownModels).
  { unfold models. rewrite Hcat, new_discoveredModels. reflexivity. }
  split; [assumption|]. split; [now rewrite Hm|].
  split; [now apply Htimer|]. split.
  - rewrite on_event_discoveredModels, Hlist, Hl. reflexivity.
  - apply reachable_not_rejected.
Qed.

Lemma discovery_timeout_witness :
  let this := run [TimerFired] (new_ReplicateProvider (Some "r8_token")) in
  length (models this) = 14%nat /\ background this = Fulfilled.
Proof.
  destruct (discovery_timeout "r8_token" [TimerFired] {| results := None |}
              eq_refl eq_refl) as (_ & Hlen & Hbg & _).
  split; [exact Hlen | apply Hbg; left; reflexivity].
Defined.

(** C3, as stated, fails: when the timer fires first and the listing then
    resolves with one record of a new identifier, the record is applied and
    the catalog has fifteen entries. *)
Lemma late_listing_is_applied :
  ~ (forall (apiKey : string) (response : ListResponse),
       JS.truthy apiKey = true ->
       let before := run [TimerFired] (new_ReplicateProvider (Some apiKey)) in
       let after := on_event before (ListingResolved response) in
       discoveredModels after = discoveredModels before /\
       length (models after) = length knownModels).
Proof.
  intros H.
  destruct (H "r8_token"
              {| results := Some [ModelData.mk (Some "acme/widget-123") None None None] |}
              eq_refl) as [_ Hlen].
  vm_compute in Hlen. discriminate Hlen.
Qed.

(* ===================================================================== *)
(** ** Non-empty capabilities *)
(* ===================================================================== *)

(** C5.  The classifier never returns the empty list; when no substring of
    the specification's table occurs in the identifier or the description
    (and already when none of the tests of the method succeeds) it returns
    text-to-image alone; and every entry of the catalog of a reachable
    provider, known or discovered, has a capability. *)
Theorem capabilities_never_empty :
  forall (modelData : ModelData.t) (this : ReplicateProvider),
    reachable this ->
    inferCapabilitiesFromModel modelData <> [] /\
    ((forall c, ~ spec_matches c modelData) ->
     inferCapabilitiesFromModel modelData = [TEXT_TO_IMAGE]) /\
    ((forall c, ~ triggered c modelData) ->
     inferCapabilitiesFromModel modelData = [TEXT_TO_IMAGE]) /\
    Forall (fun model => ProviderModel.capabilities model <> []) (models this).
Proof.
  intros modelData this Hreach.
  split; [apply inferCapabilitiesFromModel_nonempty|].
  split.
  { intros H. apply inferCapabilitiesFromModel_default.
    intros c Hc. apply (H c). now apply triggered_spec_matches. }
  split; [apply inferCapabilitiesFromModel_default|].
  apply Forall_forall. intros model Hin. unfold models, JsMap.values in Hin.
  apply in_map_iff in Hin. destruct Hin as ([k v] & <- & Hin). simpl.
  destruct (reachable_entries Hreach _ _ Hin) as [(modelDef & Hdef & ->) | (md & ->)].
  - simpl. clear Hin. revert modelDef Hdef. apply Forall_forall.
    vm_compute. repeat constructor; discriminate.
  - simpl. apply inferCapabilitiesFromModel_nonempty.
Qed.

(** The record [acme/widget-123], without description, matches nothing and
    is classified text-to-image. *)
Lemma capabilities_never_empty_witness :
  inferCapabilitiesFromModel (ModelData.mk (Some "acme/widget-123") None None None)
  = [TEXT_TO_IMAGE].
Proof.
  apply (proj1 (proj2 (capabilities_never_empty
                         (ModelData.mk (Some "acme/widget-123") None None None)
                         (reach_new None)))).
  intros c Hc. apply spec_matchesb_iff in Hc. destruct c; vm_compute in Hc; discriminate.
Defined.

(* ===================================================================== *)
(** ** Resolution and dispatch *)
(* ===================================================================== *)

Lemma resolveModel_eq (modelId : string) (this : ReplicateProvider) :
  resolveModel modelId this =
  match JsMap.get (discoveredModels this) modelId with
  | Some model => (Ok model, this)
  | None => (Throw ("Model '" ++ modelId ++ "' not found in known models"), this)
  end.
Proof.
  unfold resolveModel, bind, read. simpl.
  now destruct (JsMap.get (discoveredModels this) modelId).
Qed.

(** C7.  The lookup of [getModel] throws its not-found error exactly when the
    identifier is not a key of the catalog, and then [getModel] of a
    configured provider throws it too; for a key it returns the entry.  In
    every reachable state the identifier [black-forest-labs/flux-schnell]
    resolves, to an entry with text-to-image among its capabilities. *)
Theorem resolveModel_not_found_iff_absent :
  forall (this : ReplicateProvider) (modelId : string),
    (absent modelId (discoveredModels this) ->
     resolveModel modelId this =
     (Throw ("Model '" ++ modelId ++ "' not found in known models"), this)) /\
    (forall message, fst (resolveModel modelId this) = Throw message ->
                     absent modelId (discoveredModels this)) /\
    (In modelId (JsMap.keys (discoveredModels this)) ->
     exists model, resolveModel modelId this = (Ok model, this) /\
                   In (modelId, model) (discoveredModels this)) /\
    (forall remote c,
        client this = Some c -> absent modelId (discoveredModels this) ->
        getModel remote modelId this =
        (Throw ("Model '" ++ modelId ++ "' not found in known models"), this)) /\
    (reachable this ->
     exists model,
       resolveModel "black-forest-labs/flux-schnell" this = (Ok model, this) /\
       In TEXT_TO_IMAGE (ProviderModel.capabilities model)).
Proof.
  intros this modelId. rewrite !resolveModel_eq.
  split; [|split; [|split; [|split]]].
  - intros H. apply get_None_iff in H. now rewrite H.
  - intros message. destruct (JsMap.get (discoveredModels this) modelId) eqn:E;
      [discriminate | intros _; now apply get_None_iff].
  - intros H. destruct (JsMap.get (discoveredModels this) modelId) as [model|] eqn:E.
    + exists model. split; [reflexivity | now apply get_Some_In].
    + apply get_None_iff in E. contradiction.
  - intros remote c Hc H. apply get_None_iff in H.
    unfold getModel, bind, read. simpl. now rewrite Hc, resolveModel_eq, H.
  - intros Hreach.
    rewrite (@reachable_keeps_bootstrap this Hreach "black-forest-labs/flux-schnell"
               (knownProviderModel
                  {| def_id := "black-forest-labs/flux-schnell";
                     def_name := "FLUX.1 Schnell";
                     def_description := "Fast and high-quality text-to-image generation";
                     def_capabilities := [TEXT_TO_IMAGE] |}) eq_refl).
    eexists. split; [reflexivity | now left].
Qed.

Lemma resolveModel_not_found_iff_absent_witness :
  resolveModel "nonexistent/model" (new_ReplicateProvider None) =
  (Throw "Model 'nonexistent/model' not found in known models",
   new_ReplicateProvider None).
Proof.
  apply (resolveModel_not_found_iff_absent (new_ReplicateProvider None)
           "nonexistent/model").
  vm_compute. intuition discriminate.
Defined.

Lemma dispatch_first_matching remote (capabilities : list MediaCapability)
  (modelId : string) :
  dispatch remote capabilities modelId =
  createModel remote (wrapper_of (first_matching capabilities)) modelId.
Proof.
  unfold dispatch, first_matching, dispatch_priority, find,
    createTextToImageModel, createTextToVideoModel, createTextToAudioModel.
  destruct (includes_capability capabilities TEXT_TO_IMAGE); [reflexivity|].
  destruct (includes_capability capabilities TEXT_TO_VIDEO); [reflexivity|].
  destruct (includes_capability capabilities TEXT_TO_AUDIO); reflexivity.
Qed.

Lemma createModel_configured remote wrapper (modelId : string)
  (this : ReplicateProvider) c model cfg apiKey :
  client this = Some c ->
  JsMap.get (discoveredModels this) modelId = Some model ->
  config this = Some cfg -> given (ProviderConfig.apiKey cfg) apiKey ->
  exists args,
    createModel remote wrapper modelId this = (Ok (wrapper args), this) /\
    arg_client args = c /\ auth (arg_replicateClient args) = apiKey /\
    meta_id (arg_modelMetadata args) = modelId /\
    meta_name (arg_modelMetadata args) = ProviderModel.name model.
Proof.
  intros Hc Hm Hcfg [Hkey Hne].
  unfold createModel, getModelMetadata, getReplicateClient, bind, read. simpl.
  destruct apiKey; [contradiction|].
  repeat first [rewrite Hc | rewrite Hm | rewrite Hcfg | rewrite Hkey
               | progress cbn -[JS.or_str JS.split_slash getCategoryFromCapabilities]].
  eexists. split; [reflexivity|]. repeat split.
Qed.

(** C8.  For a configured provider and an identifier the catalog has,
    [getModel] calls the constructor of the first capability of the order
    text-to-image, text-to-video, text-to-audio that the entry has, and that
    of text-to-image when it has none of the three; with a credential in the
    stored configuration the call returns a wrapper of that class. *)
Theorem getModel_dispatch :
  forall remote (this : ReplicateProvider) (modelId : string)
         (c : ReplicateClient) (model : ProviderModel.t),
    client this = Some c ->
    JsMap.get (discoveredModels this) modelId = Some model ->
    let chosen := first_matching (ProviderModel.capabilities model) in
    getModel remote modelId this =
      createModel remote (wrapper_of chosen) modelId this /\
    (chosen = None ->
     getModel remote modelId this = createTextToImageModel remote modelId this) /\
    (forall cfg apiKey,
        config this = Some cfg -> given (ProviderConfig.apiKey cfg) apiKey ->
        exists args,
          getModel remote modelId this = (Ok (wrapper_of chosen args), this)).
Proof.
  intros remote this modelId c model Hc Hm chosen.
  assert (E : getModel remote modelId this =
              createModel remote (wrapper_of chosen) modelId this).
  { unfold getModel, bind, read. simpl. rewrite Hc, resolveModel_eq, Hm.
    apply (f_equal (fun f => f this)), dispatch_first_matching. }
  split; [assumption|]. split.
  - intros Hnone. rewrite E, Hnone. reflexivity.
  - intros cfg apiKey Hcfg Hkey. rewrite E.
    destruct (@createModel_configured remote (wrapper_of chosen) modelId this
                c model cfg apiKey Hc Hm Hcfg Hkey) as (args & Hargs & _).
    now exists args.
Qed.

(** The known video model [lumalabs/dream-machine] gets the video wrapper. *)
Lemma getModel_dispatch_witness :
  let remote := fun _ : string => Throw "Model not found" in
  let this := new_ReplicateProvider (Some "r8_token") in
  getModel remote "lumalabs/dream-machine" this =
  createModel remote
    (wrapper_of (first_matching [TEXT_TO_VIDEO])) "lumalabs/dream-machine" this /\
  wrapper_of (first_matching [TEXT_TO_VIDEO]) = ReplicateTextToVideoModel.
Proof.
  intros remote this. split; [|reflexivity].
  refine (proj1 (@getModel_dispatch remote this "lumalabs/dream-machine"
                   {| clientConfig := ReplicateConfig.mk "r8_token" 600000 2 |}
                   (knownProviderModel
                      {| def_id := "lumalabs/dream-machine";
                         def_name := "Luma Dream Machine";
                         def_description := "High-quality text-to-video generation";
                         def_capabilities := [TEXT_TO_VIDEO] |})
                   _ _)); vm_compute; reflexivity.
Defined.

(* ===================================================================== *)
(** ** An unconfigured provider *)
(* ===================================================================== *)

(** C9.  Without a client, [getModel] throws its not-configured error for
    every identifier and leaves the provider as it is, whatever the catalog
    holds; a provider built without a credential has no client, although its
    catalog has the known models, so that [getModel] fails on each of them. *)
Theorem getModel_not_configured :
  forall remote (this : ReplicateProvider) (modelId : string),
    client this = None ->
    getModel remote modelId this =
      (Throw "Provider not configured - set REPLICATE_API_TOKEN environment variable or call configure()",
       this) /\
    (forall token modelDef,
        not_given token -> In modelDef knownModels ->
        In (def_id modelDef)
           (JsMap.keys (discoveredModels (new_ReplicateProvider token))) /\
        fst (getModel remote (def_id modelDef) (new_ReplicateProvider token)) =
          Throw "Provider not configured - set REPLICATE_API_TOKEN environment variable or call configure()").
Proof.
  intros remote this modelId Hc. split.
  - unfold getModel, bind, read. simpl. now rewrite Hc.
  - intros token modelDef Htoken Hdef. split.
    + rewrite new_discoveredModels. unfold JsMap.keys. rewrite map_map.
      now apply (in_map (fun modelDef => def_id modelDef)).
    + unfold getModel, bind, read. simpl. now rewrite (new_client_None Htoken).
Qed.

Lemma getModel_not_configured_witness :
  fst (getModel (fun _ => Throw "Model not found") "black-forest-labs/flux-schnell"
         (new_ReplicateProvider None)) =
  Throw "Provider not configured - set REPLICATE_API_TOKEN environment variable or call configure()".
Proof.
  exact (f_equal fst
           (proj1 (@getModel_not_configured (fun _ => Throw "Model not found")
                     (new_ReplicateProvider None)
                     "black-forest-labs/flux-schnell" eq_refl))).
Defined.

(* ===================================================================== *)
(** ** Listing by capability *)
(* ===================================================================== *)

Lemma filter_sublist {A : Type} (f : A -> bool) (l : list A) :
  sublist (filter f l) l.
Proof.
  induction l as [|x l IH]; simpl; [constructor|].
  destruct (f x); now constructor.
Qed.


(* ===================================================================== *)
(** ** Configuration *)
(* ===================================================================== *)

Lemma configure_without_credential (cfg : ProviderConfig.t)
  (this : ReplicateProvider) :
  not_given (ProviderConfig.apiKey cfg) ->
  configure cfg this =
  (Throw "Replicate API token is required", set_config (Some cfg) this).
Proof.
  unfold configure, bind, write, throw. simpl. intros [-> | ->]; reflexivity.
Qed.

(** C4, on the code.  A provider built with a credential and then configured
    with a value that has none: the call throws the missing-token error and
    the client is the one it was, but the stored configuration is now the
    rejected value; [getModel] of a known model, which returned a wrapper
    before the call, throws after it. *)
Theorem configure_failure_overwrites_config :
  let remote := fun _ : string => @Throw ReplicateModelMetadata "Model not found" in
  let this := new_ReplicateProvider (Some "r8_token") in
  let rejected := ProviderConfig.mk None (Some 1000%N) None in
  let this' := snd (configure rejected this) in
  fst (configure rejected this) = Throw "Replicate API token is required" /\
  client this' = client this /\
  config this = Some (ProviderConfig.mk (Some "r8_token") None None) /\
  config this' = Some rejected /\
  (exists args,
      fst (getModel remote "black-forest-labs/flux-schnell" this) =
      Ok (ReplicateTextToImageModel args)) /\
  fst (getModel remote "black-forest-labs/flux-schnell" this') =
    Throw "Provider not configured with API key".
Proof.
  intros remote this rejected this'.
  split; [vm_compute; reflexivity|].
  split; [vm_compute; reflexivity|].
  split; [vm_compute; reflexivity|].
  split; [vm_compute; reflexivity|].
  split; [eexists; vm_compute; reflexivity | vm_compute; reflexivity].
Qed.

(* ===================================================================== *)
(** ** More on the merge *)
(* ===================================================================== *)

(** One iteration either leaves the catalog or appends under a new key. *)
Lemma discoverOne_cases (catalog : Catalog) (modelData : ModelData.t) :
  discoverOne catalog modelData = catalog \/
  exists id, given (ModelData.id modelData) id /\ absent id catalog /\
             discoverOne catalog modelData =
             (catalog ++ [(id, discoveredProviderModel id modelData)])%list.
Proof.
  destruct (ModelData.id modelData) as [id|] eqn:E.
  - destruct id as [|a id'] eqn:Eid.
    + left. apply discoverOne_skip. right. assumption.
    + rewrite <- Eid in *.
      assert (G : given (ModelData.id modelData) id)
        by (split; [assumption | subst id; discriminate]).
      destruct (in_dec string_dec id (JsMap.keys catalog)) as [Hin|Hnin].
      * left. now apply (discoverOne_known _ _ G).
      * right. exists id. repeat split; try apply G; try assumption.
        now apply discoverOne_new.
  - left. apply discoverOne_skip. now left.
Qed.

Lemma keys_app {V : Type} (a b : JsMap.t V) :
  JsMap.keys (a ++ b)%list = (JsMap.keys a ++ JsMap.keys b)%list.
Proof. apply map_app. Qed.

Lemma In_get {V : Type} (m : JsMap.t V) (k : string) (v : V) :
  NoDup (JsMap.keys m) -> In (k, v) m -> JsMap.get m k = Some v.
Proof.
  induction m as [|[k' v'] m IH]; simpl; [contradiction|].
  intros Hnd [[= -> ->] | Hin].
  - now rewrite String.eqb_refl.
  - inversion Hnd as [|? ? Hnotin Hnd']; subst.
    destruct (String.eqb_spec k' k) as [->|Hne].
    + exfalso. apply Hnotin. apply (in_map fst) in Hin. exact Hin.
    + now apply IH.
Qed.

Lemma discoverOne_well_keyed (catalog : Catalog) (modelData : ModelData.t) :
  well_keyed catalog -> well_keyed (discoverOne catalog modelData).
Proof.
  intros [Hnd Hall].
  destruct (discoverOne_cases catalog modelData) as [-> | (id & [_ Hne] & Habs & ->)].
  - now split.
  - split.
    + rewrite keys_app. simpl. apply NoDup_app; [assumption | | ].
      * repeat constructor. intros [].
      * intros k Hk [<- | []]. now apply Habs.
    + apply Forall_app. split; [assumption|].
      repeat constructor; assumption.
Qed.

Lemma discoverAll_preserves (P : Catalog -> Prop) :
  (forall catalog modelData, P catalog -> P (discoverOne catalog modelData)) ->
  forall models catalog, P catalog -> P (discoverAll models catalog).
Proof.
  intros Hstep models. unfold discoverAll.
  induction models as [|modelData models IH]; intros catalog H; simpl; auto.
Qed.

(** A property of catalogs that the bootstrap catalog has and an iteration
    of the merge keeps holds of every reachable catalog. *)
Lemma reachable_catalog_ind (P : Catalog -> Prop) :
  P (discoveredModels (new_ReplicateProvider None)) ->
  (forall catalog modelData, P catalog -> P (discoverOne catalog modelData)) ->
  forall this, reachable this -> P (discoveredModels this).
Proof.
  intros Hboot Hstep.
  induction 1 as [token | this ev _ IH | this cfg _ IH | this remote modelId _ IH
                  | this c _ IH | this modelId c _ IH].
  - now rewrite new_discoveredModels in *.
  - rewrite on_event_discoveredModels.
    destruct ev as [response|error|]; try assumption.
    destruct (listing this); try assumption.
    now apply discoverAll_preserves.
  - destruct (configure_writes cfg this) as (E & _). now rewrite E.
  - now rewrite getModel_reads.
  - assumption.
  - assumption.
Qed.

Lemma bootstrap_well_keyed :
  well_keyed (discoveredModels (new_ReplicateProvider None)).
Proof.
  split.
  - assert (E : nodup string_dec
                  (JsMap.keys (discoveredModels (new_ReplicateProvider None))) =
                JsMap.keys (discoveredModels (new_ReplicateProvider None)))
      by (vm_compute; reflexivity).
    rewrite <- E. apply NoDup_nodup.
  - vm_compute. repeat constructor; discriminate.
Qed.

Lemma reachable_catalog_well_keyed (this : ReplicateProvider) :
  reachable this -> well_keyed (discoveredModels this).
Proof.
  intros Hreach. apply (reachable_catalog_ind well_keyed);
    [apply bootstrap_well_keyed | apply discoverOne_well_keyed | assumption].
Qed.

(** X1.  In every reachable state the keys of the catalog are distinct, each
    entry is stored under its own identifier, which is not empty, so that the
    listed models have distinct identifiers and each listed model is the one
    its identifier looks up. *)
Theorem reachable_well_keyed :
  forall (this : ReplicateProvider),
    reachable this ->
    well_keyed (discoveredModels this) /\
    NoDup (map (fun m => ProviderModel.id m) (models this)) /\
    (forall model, In model (models this) ->
                   JsMap.get (discoveredModels this) (ProviderModel.id model)
                   = Some model).
Proof.
  intros this Hreach.
  pose proof (reachable_catalog_well_keyed Hreach) as W.
  split; [assumption|]. destruct W as [Hnd Hall].
  assert (Hid : forall kv, In kv (discoveredModels this) ->
                           ProviderModel.id (snd kv) = fst kv)
    by (intros kv Hin; now apply (proj1 (Forall_forall _ _) Hall kv)).
  split.
  - unfold models, JsMap.values. rewrite map_map.
    rewrite (map_ext_in _ fst); [exact Hnd | exact Hid].
  - intros model Hin. unfold models, JsMap.values in Hin.
    apply in_map_iff in Hin. destruct Hin as ([k v] & <- & Hin).
    rewrite (Hid _ Hin). now apply In_get.
Qed.

Lemma reachable_well_keyed_witness :
  NoDup (map (fun m => ProviderModel.id m)
           (models (on_event (new_ReplicateProvider (Some "r8_token"))
                      (ListingResolved
                         {| results :=
                              Some [ModelData.mk (Some "acme/widget") None None None;
                                    ModelData.mk (Some "acme/widget") (Some "Again")
                                      None None] |})))).
Proof.
  apply reachable_well_keyed. apply reach_event, reach_new.
Defined.

(** The lookup of a key after one iteration. *)
Lemma get_discoverOne (catalog : Catalog) (modelData : ModelData.t) (k : string) :
  JsMap.get (discoverOne catalog modelData) k =
  match JsMap.get catalog k with
  | Some v => Some v
  | None =>
      match ModelData.id modelData with
      | Some i => if JS.truthy k && String.eqb i k
                  then Some (discoveredProviderModel k modelData) else None
      | None => None
      end
  end.
Proof.
  destruct (JsMap.get catalog k) as [v|] eqn:E.
  - now apply discoverOne_keeps.
  - destruct (discoverOne_cases catalog modelData)
      as [Hsame | (id & [Hid Hne] & Habs & ->)].
    + rewrite Hsame, E. destruct (ModelData.id modelData) as [i|] eqn:Ei; [|reflexivity].
      destruct (String.eqb_spec i k) as [->|Hik]; [|now rewrite andb_false_r].
      rewrite andb_true_r. destruct (JS.truthy k) eqn:Ek; [|reflexivity].
      exfalso.
      assert (G : given (ModelData.id modelData) k)
        by (split; [assumption | intros ->; discriminate]).
      apply get_None_iff in E.
      pose proof (discoverOne_new _ G E) as Hnew.
      rewrite Hsame in Hnew. apply (f_equal (@length _)) in Hnew.
      rewrite length_app in Hnew. simpl in Hnew. lia.
    + rewrite get_app_new, E, Hid.
      destruct (String.eqb_spec id k) as [->|Hik]; [|now rewrite andb_false_r].
      destruct k; [contradiction | reflexivity].
Qed.

(** X2.  The merge only appends: the catalog after merging a listing is the
    catalog before, entries and order untouched, followed by at most one new
    entry per record, each under a key the catalog did not have. *)
Theorem discoverAll_appends :
  forall (models : list ModelData.t) (catalog : Catalog),
  exists added,
    discoverAll models catalog = (catalog ++ added)%list /\
    length added <= length models /\
    (forall k, In k (JsMap.keys added) -> absent k catalog) /\
    JsMap.size catalog <= JsMap.size (discoverAll models catalog).
Proof.
  intros models. unfold discoverAll.
  induction models as [|modelData models IH]; intros catalog; simpl.
  - exists []. rewrite app_nil_r. repeat split; auto. intros k [].
  - destruct (IH (discoverOne catalog modelData)) as (added & -> & Hlen & Hkeys & _).
    destruct (discoverOne_cases catalog modelData)
      as [Hsame | (id & _ & Habs & Hnew)]; rewrite ?Hsame, ?Hnew in *.
    + exists added. split; [reflexivity|]. split; [lia|]. split; [assumption|].
      unfold JsMap.size. rewrite length_app. lia.
    + exists ((id, discoveredProviderModel id modelData) :: added).
      rewrite <- app_assoc. simpl.
      split; [reflexivity|]. split; [lia|]. split.
      * intros k [<- | Hk]; [assumption|].
        intros Hin. apply (Hkeys k Hk). rewrite keys_app, in_app_iff. now left.
      * unfold JsMap.size. rewrite length_app. lia.
Qed.

(** The first record with a new identifier decides the entry. *)
Lemma get_discoverAll_new (models : list ModelData.t) (catalog : Catalog)
  (k : string) (modelData : ModelData.t) :
  JsMap.get catalog k = None -> JS.truthy k = true ->
  first_with_id k models = Some modelData ->
  JsMap.get (discoverAll models catalog) k =
  Some (discoveredProviderModel k modelData).
Proof.
  unfold discoverAll, first_with_id. revert catalog.
  induction models as [|first models IH]; intros catalog Hnone Hk Hfirst;
    simpl in *; [discriminate|].
  pose proof (get_discoverOne catalog first k) as Hone.
  rewrite Hnone, Hk in Hone.
  destruct (ModelData.id first) as [i|]; simpl in *.
  - destruct (String.eqb i k).
    + injection Hfirst as <-. now apply discoverAll_keeps.
    + now apply IH.
  - now apply IH.
Qed.

(** X3.  What a key looks up after the merge of a listing: the entry the
    catalog had for it, if any; otherwise, for a non-empty key, the entry
    built from the first record of the listing that carries this identifier;
    otherwise nothing.  Later records with the same identifier are ignored. *)
Theorem discoverAll_lookup :
  forall (models : list ModelData.t) (catalog : Catalog) (k : string),
    JsMap.get (discoverAll models catalog) k =
    match JsMap.get catalog k with
    | Some v => Some v
    | None =>
        if JS.truthy k then
          match first_with_id k models with
          | Some modelData => Some (discoveredProviderModel k modelData)
          | None => None
          end
        else None
    end.
Proof.
  intros models. unfold discoverAll, first_with_id.
  induction models as [|modelData models IH]; intros catalog k; simpl.
  - destruct (JsMap.get catalog k); [reflexivity | now destruct (JS.truthy k)].
  - rewrite IH, get_discoverOne.
    destruct (JsMap.get catalog k) as [v|]; [reflexivity|].
    destruct (ModelData.id modelData) as [i|]; [|reflexivity].
    destruct (JS.truthy k); simpl; [|reflexivity].
    now destruct (String.eqb i k).
Qed.

Lemma discoverAll_fixed (models : list ModelData.t) (catalog : Catalog) :
  (forall modelData, In modelData models -> discoverOne catalog modelData = catalog) ->
  discoverAll models catalog = catalog.
Proof.
  unfold discoverAll. induction models as [|modelData models IH]; intros H; simpl.
  - reflexivity.
  - rewrite (H modelData) by now left. apply IH. intros md Hin. apply H. now right.
Qed.

Lemma first_with_id_In (id : string) (models : list ModelData.t)
  (modelData : ModelData.t) :
  In modelData models -> ModelData.id modelData = Some id ->
  exists first, first_with_id id models = Some first.
Proof.
  unfold first_with_id. intros Hin Hid.
  destruct (find _ models) as [first|] eqn:E; [now exists first|].
  exfalso. apply (find_none _ _ E) in Hin. now rewrite Hid, String.eqb_refl in Hin.
Qed.

(** X4.  Merging the same listing again changes nothing: every record of the
    listing has no identifier or an identifier the catalog now has. *)
Theorem discoverAll_idempotent :
  forall (models : list ModelData.t) (catalog : Catalog),
    discoverAll models (discoverAll models catalog) = discoverAll models catalog.
Proof.
  intros models catalog. apply discoverAll_fixed. intros modelData Hin.
  destruct (ModelData.id modelData) as [id|] eqn:Hid;
    [|apply discoverOne_skip; now left].
  destruct id as [|a id'] eqn:Eid; [apply discoverOne_skip; now right|].
  rewrite <- Eid in *.
  assert (Hne : id <> EmptyString) by (subst id; discriminate).
  apply (@discoverOne_known _ _ id); [now split|].
  apply has_true_iff. unfold JsMap.has.
  destruct (JsMap.get catalog id) as [v|] eqn:Eget.
  - now rewrite (@discoverAll_keeps models catalog id v Eget).
  - assert (Ht : JS.truthy id = true) by (subst id; reflexivity).
    destruct (@first_with_id_In id models modelData Hin Hid) as (first & Hfirst).
    now rewrite (@get_discoverAll_new models catalog id first Eget Ht Hfirst).
Qed.

(* ===================================================================== *)
(** ** Configuration after construction *)
(* ===================================================================== *)

Lemma perform_all_reachable (actions : list Action) (this : ReplicateProvider) :
  reachable this -> reachable (perform_all actions this).
Proof.
  unfold perform_all. revert this.
  induction actions as [|a actions IH]; intros this H; simpl; [assumption|].
  apply IH. destruct a; simpl; now constructor.
Qed.

Lemma perform_unstarted (this : ReplicateProvider) (a : Action) :
  listing this = Unstarted ->
  listing (perform this a) = Unstarted /\
  discoveredModels (perform this a) = discoveredModels this.
Proof.
  intros H. destruct a as [ev|cfg]; simpl.
  - split.
    + destruct ev as [response|error|]; simpl;
        unfold listing_settled, timer_fired; rewrite ?H; try reflexivity.
      destruct (timeoutPromise this); try assumption.
      rewrite race_settled_eq. simpl. now destruct (background this).
    + rewrite on_event_discoveredModels, H. now destruct ev.
  - destruct (configure_writes cfg this) as (E & El & _). now rewrite E, El.
Qed.

(** X5.  Discovery is started by the constructor only.  A provider built
    without a credential keeps exactly the known models, whatever events
    occur and whatever is configured afterwards, a valid credential
    included. *)
Theorem no_token_no_discovery :
  forall (token : option string) (actions : list Action),
    not_given token ->
    let this := perform_all actions (new_ReplicateProvider token) in
    models this = map knownProviderModel knownModels /\
    listing this = Unstarted.
Proof.
  intros token actions Htoken this.
  assert (H : listing this = Unstarted /\
              discoveredModels this =
              discoveredModels (new_ReplicateProvider token)).
  { unfold this, perform_all.
    assert (H0 : listing (new_ReplicateProvider token) = Unstarted)
      by (destruct Htoken as [-> | ->]; reflexivity).
    revert H0. generalize (new_ReplicateProvider token) as s.
    induction actions as [|a actions IH]; intros s H0; simpl; [now split|].
    destruct (perform_unstarted s a H0) as [Hl Hc].
    destruct (IH _ Hl) as [Hl' Hc']. split; [assumption | congruence]. }
  destruct H as [Hl Hc]. split; [|assumption].
  unfold models. rewrite Hc, new_discoveredModels.
  unfold JsMap.values. now rewrite map_map.
Qed.

Lemma no_token_no_discovery_witness :
  models
    (perform_all
       [Configure (ProviderConfig.mk (Some "r8_token") None None);
        Occur (ListingResolved
                 {| results :=
                      Some [ModelData.mk (Some "acme/widget") None None None] |})]
       (new_ReplicateProvider None))
  = map knownProviderModel knownModels.
Proof.
  apply (no_token_no_discovery
           [Configure (ProviderConfig.mk (Some "r8_token") None None);
            Occur (ListingResolved
                     {| results :=
                          Some [ModelData.mk (Some "acme/widget") None None None] |})]).
  left. reflexivity.
Defined.

Lemma configure_with_credential (cfg : ProviderConfig.t) (k : string)
  (this : ReplicateProvider) :
  given (ProviderConfig.apiKey cfg) k ->
  configure cfg this =
  (Ok tt,
   set_client
     (Some {| clientConfig :=
                ReplicateConfig.mk k
                  (JS.or_num (ProviderConfig.timeout cfg) 600000)
                  (JS.or_num (ProviderConfig.retries cfg) 2) |})
     (set_config (Some cfg) this)).
Proof.
  intros [Hk Hne]. unfold configure, bind, write, throw. simpl. rewrite Hk.
  destruct k; [contradiction | reflexivity].
Qed.

(** X6.  [configure] with a credential succeeds, keeps the catalog, stores
    the value and builds a client with that credential, a missing or zero
    timeout replaced by 600000 and a missing or zero retry count by 2; after
    it, [getModel] of any identifier of the catalog returns a wrapper whose
    two clients carry the credential. *)
Theorem configure_then_getModel :
  forall remote (this : ReplicateProvider) (cfg : ProviderConfig.t)
         (k modelId : string) (model : ProviderModel.t),
    given (ProviderConfig.apiKey cfg) k ->
    JsMap.get (discoveredModels this) modelId = Some model ->
    let this' := snd (configure cfg this) in
    fst (configure cfg this) = Ok tt /\
    discoveredModels this' = discoveredModels this /\
    config this' = Some cfg /\
    (exists c, client this' = Some c /\
               ReplicateConfig.apiKey (clientConfig c) = k /\
               ReplicateConfig.timeout (clientConfig c) =
                 match ProviderConfig.timeout cfg with
                 | Some 0%N | None => 600000%N
                 | Some t => t
                 end /\
               ReplicateConfig.retries (clientConfig c) =
                 match ProviderConfig.retries cfg with
                 | Some 0%N | None => 2%N
                 | Some r => r
                 end) /\
    exists args,
      getModel remote modelId this' =
        (Ok (wrapper_of (first_matching (ProviderModel.capabilities model)) args),
         this') /\
      client this' = Some (arg_client args) /\
      auth (arg_replicateClient args) = k.
Proof.
  intros remote this cfg k modelId model Hk Hm this'.
  unfold this'. rewrite (@configure_with_credential cfg k this Hk). simpl.
  split; [reflexivity|]. split; [reflexivity|]. split; [reflexivity|]. split.
  - eexists. split; [reflexivity|]. simpl. split; [reflexivity|].
    split.
    + destruct (ProviderConfig.timeout cfg) as [[|p]|]; reflexivity.
    + destruct (ProviderConfig.retries cfg) as [[|p]|]; reflexivity.
  - set (s := set_client _ _).
    assert (Hc : client s = Some {| clientConfig :=
                ReplicateConfig.mk k
                  (JS.or_num (ProviderConfig.timeout cfg) 600000)
                  (JS.or_num (ProviderConfig.retries cfg) 2) |}) by reflexivity.
    assert (Hm' : JsMap.get (discoveredModels s) modelId = Some model) by exact Hm.
    assert (Hcfg : config s = Some cfg) by reflexivity.
    destruct (@createModel_configured remote
                (wrapper_of (first_matching (ProviderModel.capabilities model)))
                modelId s _ model cfg k Hc Hm' Hcfg Hk)
      as (args & Hargs & Hac & Hauth & _).
    exists args. split; [|split; [now rewrite Hac | assumption]].
    rewrite <- Hargs. unfold getModel, bind, read. simpl.
    rewrite resolveModel_eq. fold s. rewrite Hm'.
    apply (f_equal (fun f => f s)), dispatch_first_matching.
Qed.

Lemma configure_then_getModel_witness :
  let this := new_ReplicateProvider None in
  let cfg := ProviderConfig.mk (Some "r8_token") (Some 0%N) None in
  exists c, client (snd (configure cfg this)) = Some c /\
            ReplicateConfig.apiKey (clientConfig c) = "r8_token" /\
            ReplicateConfig.timeout (clientConfig c) = 600000%N /\
            ReplicateConfig.retries (clientConfig c) = 2%N.
Proof.
  intros this cfg.
  apply (@configure_then_getModel (fun _ => Throw "Model not found") this cfg
           "r8_token" "meta/musicgen"
           (knownProviderModel
              {| def_id := "meta/musicgen";
                 def_name := "MusicGen";
                 def_description := "Meta's music generation model";
                 def_capabilities := [TEXT_TO_AUDIO] |})).
  - split; [reflexivity | discriminate].
  - vm_compute. reflexivity.
Defined.

Lemma or_num_nonzero (a : option N) (b : N) : b <> 0%N -> JS.or_num a b <> 0%N.
Proof.
  intros Hb. unfold JS.or_num. destruct a as [n|]; [|assumption].
  destruct (N.eqb_spec n 0); assumption.
Qed.

Lemma new_credentials_agree (token : option string) :
  credentials_agree (new_ReplicateProvider token).
Proof.
  destruct token as [[|a k]|]; split.
  - intros c H. discriminate H.
  - intros cfg k0 H. discriminate H.
  - intros c [= <-]. simpl. repeat split; discriminate.
  - intros cfg k0 [= <-] [[= <-] _]. eexists. split; reflexivity.
  - intros c H. discriminate H.
  - intros cfg k0 H. discriminate H.
Qed.

(** X7.  The client is well formed in every state, also when callers write
    to the configuration objects they passed to [configure], which the
    provider keeps by reference: a client has a non-empty key, a non-zero
    timeout and retry count, and comes with a stored configuration.  As long
    as [configure] has not been called, a key in the stored configuration is
    the key of the client.  After [configure] this can fail: when the caller
    configures the key [k1] and then writes [k9] into the same object, the
    client keeps [k1] and [getReplicateClient] builds its client with
    [k9]. *)
Theorem client_well_formed_under_sharing :
  (forall (this : ReplicateProvider) (held : bool),
      reachable_sharing this held ->
      (forall c, client this = Some c ->
                 ReplicateConfig.apiKey (clientConfig c) <> EmptyString /\
                 ReplicateConfig.timeout (clientConfig c) <> 0%N /\
                 ReplicateConfig.retries (clientConfig c) <> 0%N /\
                 config this <> None) /\
      (held = false ->
       forall cfg k, config this = Some cfg ->
                     given (ProviderConfig.apiKey cfg) k ->
                     exists c, client this = Some c /\
                               ReplicateConfig.apiKey (clientConfig c) = k)) /\
  (let configured :=
     snd (configure (ProviderConfig.mk (Some "k1") None None)
            (new_ReplicateProvider None)) in
   let this := caller_writes (ProviderConfig.mk (Some "k9") None None) configured in
   reachable_sharing this true /\
   client this = Some {| clientConfig := ReplicateConfig.mk "k1" 600000 2 |} /\
   getReplicateClient this = (Ok {| auth := "k9" |}, this)).
Proof.
  split.
  - intros this held Hreach.
    assert (A : (forall c, client this = Some c ->
                           ReplicateConfig.apiKey (clientConfig c) <> EmptyString /\
                           ReplicateConfig.timeout (clientConfig c) <> 0%N /\
                           ReplicateConfig.retries (clientConfig c) <> 0%N /\
                           config this <> None) /\
                (held = false -> credentials_agree this)).
    { induction Hreach as [token | this held ev _ IH | this held cfg _ IH
                           | this cfg' _ IH | this held remote modelId _ IH
                           | this held c _ IH | this held modelId c _ IH].
      - split; [|intros _]; apply new_credentials_agree.
      - unfold credentials_agree.
        destruct (on_event_fields this ev) as [-> ->]. exact IH.
      - destruct IH as [IH _]. split; [|discriminate].
        destruct (configure_writes cfg this) as (_ & _ & _ & _ & _ & Hcfg).
        intros c Hc. rewrite Hcfg.
        destruct (ProviderConfig.apiKey cfg) as [k|] eqn:Ek.
        + destruct k as [|a k'] eqn:Hk.
          * rewrite configure_without_credential in Hc by (right; assumption).
            simpl in Hc. destruct (IH c Hc) as (H1 & H2 & H3 & _).
            repeat split; try assumption. discriminate.
          * rewrite <- Hk in *.
            assert (G : given (ProviderConfig.apiKey cfg) k)
              by (split; [assumption | subst k; discriminate]).
            rewrite (@configure_with_credential cfg k this G) in Hc.
            simpl in Hc. injection Hc as <-. simpl.
            split; [apply G|].
            split; [apply or_num_nonzero; discriminate|].
            split; [apply or_num_nonzero; discriminate | discriminate].
        + rewrite configure_without_credential in Hc by (left; assumption).
          simpl in Hc. destruct (IH c Hc) as (H1 & H2 & H3 & _).
          repeat split; try assumption. discriminate.
      - destruct IH as [IH _]. split; [|discriminate].
        intros c Hc. simpl in Hc. destruct (IH c Hc) as (H1 & H2 & H3 & _).
        repeat split; try assumption. discriminate.
      - now rewrite getModel_reads.
      - exact IH.
      - exact IH. }
    destruct A as [A1 A2]. split; [exact A1|].
    intros Hheld. exact (proj2 (A2 Hheld)).
  - intros configured this. split.
    + apply share_caller_writes.
      apply (share_configure (held := false)), share_new.
    + split; vm_compute; reflexivity.
Qed.

Lemma client_well_formed_under_sharing_witness :
  let this :=
    caller_writes (ProviderConfig.mk None (Some 0%N) None)
      (snd (configure (ProviderConfig.mk (Some "k1") (Some 0%N) None)
              (new_ReplicateProvider None))) in
  let c := {| clientConfig := ReplicateConfig.mk "k1" 600000 2 |} in
  client this = Some c /\
  ReplicateConfig.apiKey (clientConfig c) <> EmptyString /\
  ReplicateConfig.timeout (clientConfig c) <> 0%N /\
  ReplicateConfig.retries (clientConfig c) <> 0%N /\
  config this <> None.
Proof.
  intros this c.
  assert (Hc : client this = Some c) by (vm_compute; reflexivity).
  split; [exact Hc|].
  exact (proj1 (proj1 client_well_formed_under_sharing this true
                  (share_caller_writes _
                     (share_configure _ (share_new None)))) c Hc).
Defined.

(* ===================================================================== *)
(** ** Metadata and wrappers *)
(* ===================================================================== *)

Lemma getModelMetadata_eq remote (modelId : string) (this : ReplicateProvider) :
  getModelMetadata remote modelId this =
  match client this with
  | None => (Throw "Provider not configured", this)
  | Some _ =>
      match JsMap.get (discoveredModels this) modelId with
      | Some knownModel =>
          (Ok {| meta_id := modelId;
                 meta_owner :=
                   JS.or_str (hd_error (JS.split_slash modelId)) "unknown";
                 meta_name := ProviderModel.name knownModel;
                 meta_description :=
                   JS.or_str (Some (ProviderModel.description knownModel))
                     "Replicate model";
                 meta_category :=
                   getCategoryFromCapabilities (ProviderModel.capabilities knownModel);
                 meta_capabilities := ProviderModel.capabilities knownModel |},
           this)
      | None => (remote modelId, this)
      end
  end.
Proof.
  unfold getModelMetadata, bind, read. simpl.
  destruct (client this); [|reflexivity]. simpl.
  destruct (JsMap.get (discoveredModels this) modelId); reflexivity.
Qed.

Lemma createModel_eq remote wrapper (modelId : string) (this : ReplicateProvider) :
  createModel remote wrapper modelId this =
  match client this with
  | None => (Throw "Provider not configured", this)
  | Some c =>
      match fst (getModelMetadata remote modelId this) with
      | Throw e => (Throw e, this)
      | Ok modelMetadata =>
          match fst (getReplicateClient this) with
          | Throw e => (Throw e, this)
          | Ok replicateClient =>
              (Ok (wrapper {| arg_client := c;
                              arg_modelMetadata := modelMetadata;
                              arg_replicateClient := replicateClient |}), this)
          end
      end
  end.
Proof.
  unfold createModel, bind, read. simpl.
  destruct (client this) as [c|]; [|reflexivity].
  pose proof (getModelMetadata_reads remote modelId this) as Hm.
  destruct (getModelMetadata remote modelId this) as [[md|e] this1];
    simpl in Hm; subst this1; [|reflexivity]. simpl.
  pose proof (getReplicateClient_reads this) as Hr.
  destruct (getReplicateClient this) as [[rc|e] this2];
    simpl in Hr; subst this2; reflexivity.
Qed.

(** X8.  [getModel] never asks the remote metadata service: its outcome is
    the same whatever that service would answer, because only identifiers of
    the catalog get as far as the metadata, and those are answered from the
    catalog. *)
Theorem getModel_ignores_remote :
  forall remote1 remote2 (modelId : string) (this : ReplicateProvider),
    getModel remote1 modelId this = getModel remote2 modelId this.
Proof.
  intros remote1 remote2 modelId this.
  unfold getModel, bind, read. simpl.
  destruct (client this) as [c|] eqn:Ec; [|reflexivity].
  rewrite resolveModel_eq.
  destruct (JsMap.get (discoveredModels this) modelId) as [model|] eqn:Em;
    [|reflexivity].
  rewrite !dispatch_first_matching, !createModel_eq, Ec, !getModelMetadata_eq, Ec, Em.
  reflexivity.
Qed.

(** The first segment of [owner/rest] is [owner]. *)
Lemma split_slash_owner (owner rest : string) :
  no_slash owner = true ->
  hd_error (JS.split_slash (owner ++ String "/" rest)) = Some owner.
Proof.
  induction owner as [|c owner IH]; simpl; [reflexivity|].
  destruct (Ascii.eqb c "/"); simpl; [discriminate|].
  intros H. specialize (IH H).
  destruct (JS.split_slash (owner ++ String "/" rest)) as [|x l];
    [discriminate|].
  simpl in *. congruence.
Qed.

(** X9.  With a client, the metadata of an identifier of the catalog is
    built from the entry, without the remote service: same identifier, name
    and capabilities, a description and an owner that are never empty, the
    owner being what precedes the first slash, or [unknown] when the
    identifier starts with a slash; for an identifier the catalog does not
    have, the answer of the remote service is passed on, its failure
    included.  Without a client the method throws. *)
Theorem getModelMetadata_cases :
  forall remote (this : ReplicateProvider) (modelId : string),
    (client this = None ->
     getModelMetadata remote modelId this = (Throw "Provider not configured", this)) /\
    (forall c, client this = Some c -> absent modelId (discoveredModels this) ->
               getModelMetadata remote modelId this = (remote modelId, this)) /\
    (forall c model,
        client this = Some c ->
        JsMap.get (discoveredModels this) modelId = Some model ->
        exists metadata,
          getModelMetadata remote modelId this = (Ok metadata, this) /\
          meta_id metadata = modelId /\
          meta_name metadata = ProviderModel.name model /\
          meta_capabilities metadata = ProviderModel.capabilities model /\
          meta_category metadata =
            getCategoryFromCapabilities (ProviderModel.capabilities model) /\
          meta_description metadata <> EmptyString /\
          meta_owner metadata <> EmptyString /\
          (forall owner rest,
              modelId = owner ++ String "/" rest -> no_slash owner = true ->
              meta_owner metadata =
                if JS.truthy owner then owner else "unknown")).
Proof.
  intros remote this modelId. rewrite getModelMetadata_eq. split; [|split].
  - now intros ->.
  - intros c -> Habs. apply get_None_iff in Habs. now rewrite Habs.
  - intros c model -> ->. eexists. split; [reflexivity|]. simpl.
    repeat split.
    + destruct (ProviderModel.description model); discriminate.
    + destruct (hd_error (JS.split_slash modelId)) as [[|a s]|]; discriminate.
    + intros owner rest -> Hns. rewrite (split_slash_owner _ rest Hns).
      now destruct owner.
Qed.

Lemma getModelMetadata_cases_witness :
  getModelMetadata (fun _ => Throw "Model not found") "acme/unlisted"
    (new_ReplicateProvider (Some "r8_token"))
  = (Throw "Model not found", new_ReplicateProvider (Some "r8_token")).
Proof.
  apply (proj1 (proj2 (getModelMetadata_cases (fun _ => Throw "Model not found")
                         (new_ReplicateProvider (Some "r8_token"))
                         "acme/unlisted"))
           {| clientConfig := ReplicateConfig.mk "r8_token" 600000 2 |}).
  - reflexivity.
  - vm_compute. intuition discriminate.
Defined.

Lemma includes_all_false (capabilities : list MediaCapability) :
  (forall c, includes_capability capabilities c = false) -> capabilities = [].
Proof.
  destruct capabilities as [|c l]; [reflexivity|]. intros H. exfalso.
  specialize (H c).
  assert (T : includes_capability (c :: l) c = true)
    by (apply includes_capability_In; now left).
  congruence.
Qed.

(** X10.  The category of a capability list is [other] only for the empty
    list, and the wrapper [getModel] chooses follows the category: video for
    [text-to-video], audio for [text-to-audio], and the image wrapper for
    every other category, so also for image-to-image, image-to-video and
    video-to-video models. *)
Theorem category_and_wrapper :
  forall (capabilities : list MediaCapability),
    let category := getCategoryFromCapabilities capabilities in
    (category = "other" <-> capabilities = []) /\
    (category = "text-to-image" <-> first_matching capabilities = Some TEXT_TO_IMAGE) /\
    (category = "text-to-video" <-> first_matching capabilities = Some TEXT_TO_VIDEO) /\
    (category = "text-to-audio" <-> first_matching capabilities = Some TEXT_TO_AUDIO) /\
    (first_matching capabilities = None <->
     category = "image-to-image" \/ category = "image-to-video" \/
     category = "video-to-video" \/ category = "other").
Proof.
  intros capabilities category. unfold category.
  assert (E : getCategoryFromCapabilities capabilities = "other" <->
              capabilities = []).
  { split.
    - intros H. apply includes_all_false. intros c. revert H.
      unfold getCategoryFromCapabilities.
      destruct (includes_capability capabilities TEXT_TO_IMAGE) eqn:E1;
        [discriminate|].
      destruct (includes_capability capabilities TEXT_TO_VIDEO) eqn:E2;
        [discriminate|].
      destruct (includes_capability capabilities TEXT_TO_AUDIO) eqn:E3;
        [discriminate|].
      destruct (includes_capability capabilities IMAGE_TO_IMAGE) eqn:E4;
        [discriminate|].
      destruct (includes_capability capabilities IMAGE_TO_VIDEO) eqn:E5;
        [discriminate|].
      destruct (includes_capability capabilities VIDEO_TO_VIDEO) eqn:E6;
        [discriminate|].
      intros _. destruct c; assumption.
    - intros ->. reflexivity. }
  split; [exact E|]. clear E.
  unfold getCategoryFromCapabilities, first_matching, dispatch_priority, find.
  destruct (includes_capability capabilities TEXT_TO_IMAGE);
    [repeat split; intros H; try discriminate H;
     try (destruct H as [H|[H|[H|H]]]; discriminate H); reflexivity|].
  destruct (includes_capability capabilities TEXT_TO_VIDEO);
    [repeat split; intros H; try discriminate H;
     try (destruct H as [H|[H|[H|H]]]; discriminate H); reflexivity|].
  destruct (includes_capability capabilities TEXT_TO_AUDIO);
    [repeat split; intros H; try discriminate H;
     try (destruct H as [H|[H|[H|H]]]; discriminate H); reflexivity|].
  destruct (includes_capability capabilities IMAGE_TO_IMAGE);
    [repeat split; intros H; try discriminate H; try reflexivity; tauto|].
  destruct (includes_capability capabilities IMAGE_TO_VIDEO);
    [repeat split; intros H; try discriminate H; try reflexivity; tauto|].
  destruct (includes_capability capabilities VIDEO_TO_VIDEO);
    repeat split; intros H; try discriminate H; try reflexivity; tauto.
Qed.

(* ===================================================================== *)
(** ** Support queries *)
(* ===================================================================== *)

(** X11.  [supportsTextToImageModel] and its siblings never throw and do not
    change the provider; they answer [false] for an identifier the catalog
    does not have; and in every reachable state they answer [true] exactly
    for the identifiers that [getSupportedTextToImageModels] and its siblings
    list. *)
Theorem supportsModel_agrees_with_supported :
  forall (this : ReplicateProvider) (modelId : string) (c : MediaCapability),
    (exists answer, supportsModel modelId c this = (Ok answer, this)) /\
    (absent modelId (discoveredModels this) ->
     supportsModel modelId c this = (Ok false, this)) /\
    (reachable this ->
     exists supported,
       getSupportedModels c this = (Ok supported, this) /\
       (supportsModel modelId c this = (Ok true, this) <-> In modelId supported)).
Proof.
  intros this modelId c. split; [now eexists|]. split.
  - intros Habs. apply get_None_iff in Habs.
    unfold supportsModel, read. now rewrite Habs.
  - intros Hreach. eexists. split; [reflexivity|].
    destruct (reachable_catalog_well_keyed Hreach) as [Hnd Hall].
    unfold supportsModel, read. rewrite in_map_iff. split.
    + destruct (JsMap.get (discoveredModels this) modelId) as [model|] eqn:E;
        [|discriminate].
      intros [= Hinc]. exists model.
      pose proof (get_Some_In _ _ E) as Hin.
      split.
      * apply (proj1 (Forall_forall _ _) Hall (modelId, model) Hin).
      * apply filter_In. split; [|assumption].
        unfold models, JsMap.values. apply in_map_iff.
        now exists (modelId, model).
    + intros (model & <- & Hin). apply filter_In in Hin.
      destruct Hin as [Hin Hinc]. unfold models, JsMap.values in Hin.
      apply in_map_iff in Hin. destruct Hin as ([k v] & <- & Hin).
      pose proof (proj1 (Forall_forall _ _) Hall (k, v) Hin) as [Hkv _].
      simpl in *. rewrite Hkv, (@In_get _ _ k v Hnd Hin), Hinc. reflexivity.
Qed.

Lemma supportsModel_agrees_with_supported_witness :
  supportsModel "nonexistent/model" TEXT_TO_IMAGE (new_ReplicateProvider None)
  = (Ok false, new_ReplicateProvider None).
Proof.
  apply (proj1 (proj2 (supportsModel_agrees_with_supported
                         (new_ReplicateProvider None) "nonexistent/model"
                         TEXT_TO_IMAGE))).
  vm_compute. intuition discriminate.
Defined.

(* ===================================================================== *)
(** ** Availability and health *)
(* ===================================================================== *)

Lemma isAvailable_eq testConnection (this : ReplicateProvider) :
  isAvailable testConnection this =
  (Ok match client this with
      | Some c => match testConnection c with Ok b => b | Throw _ => false end
      | None => false
      end, this).
Proof.
  unfold isAvailable, bind, read, try_catch, awaited. simpl.
  destruct (client this) as [c|]; [|reflexivity].
  destruct (testConnection c); reflexivity.
Qed.

(** X12.  [isAvailable] never throws and does not change the provider.  It
    answers [true] exactly when there is a client and the connection test
    resolved to [true]; a connection test that fails gives [false].
    [startService] is the same call and [stopService] answers [true]. *)
Theorem isAvailable_never_throws :
  forall testConnection (this : ReplicateProvider),
  exists available,
    isAvailable testConnection this = (Ok available, this) /\
    startService testConnection this = (Ok available, this) /\
    stopService this = (Ok true, this) /\
    (available = true <->
     exists c, client this = Some c /\ testConnection c = Ok true) /\
    (client this = None -> available = false) /\
    (forall c e, client this = Some c -> testConnection c = Throw e ->
                 available = false).
Proof.
  intros testConnection this. unfold startService.
  rewrite isAvailable_eq. eexists. split; [reflexivity|].
  split; [reflexivity|]. split; [reflexivity|]. split; [|split].
  - destruct (client this) as [c|].
    + split.
      * intros H. exists c. split; [reflexivity|].
        destruct (testConnection c) as [b|e]; [now subst | discriminate].
      * intros (c' & [= <-] & ->). reflexivity.
    + split; [discriminate | intros (c' & [=] & _)].
  - now intros ->.
  - now intros c e -> ->.
Qed.

(** X13.  [getHealth] and [getServiceStatus] never throw, do not change the
    provider and agree with [isAvailable]: the status is [healthy] exactly
    when the provider is available, the error is absent exactly then and is
    the same in both reports, the service always counts as running, and the
    job counts are zero. *)
Theorem health_reports_agree :
  forall testConnection process_uptime (this : ReplicateProvider),
  exists available health service,
    isAvailable testConnection this = (Ok available, this) /\
    getHealth testConnection process_uptime this = (Ok health, this) /\
    getServiceStatus testConnection this = (Ok service, this) /\
    ServiceStatus.running service = true /\
    ServiceStatus.healthy service = available /\
    (Health.status health = "healthy" <-> available = true) /\
    (Health.status health = "unhealthy" <-> available = false) /\
    Health.lastError health = ServiceStatus.error service /\
    (Health.lastError health = None <-> available = true) /\
    Health.uptime health = process_uptime /\
    Health.activeJobs health = 0%N /\ Health.queuedJobs health = 0%N.
Proof.
  intros testConnection process_uptime this.
  unfold getHealth, getServiceStatus, bind. rewrite isAvailable_eq.
  do 3 eexists. split; [reflexivity|]. split; [reflexivity|].
  split; [reflexivity|]. simpl.
  destruct (match client this with
            | Some c => match testConnection c with Ok b => b | Throw _ => false end
            | None => false
            end); repeat split; intros H; try discriminate H; reflexivity.
Qed.

Lemma isAvailable_never_throws_witness :
  isAvailable (fun _ => Throw "fetch failed") (new_ReplicateProvider (Some "r8_token"))
  = (Ok false, new_ReplicateProvider (Some "r8_token")).
Proof.
  destruct (isAvailable_never_throws (fun _ => Throw "fetch failed")
              (new_ReplicateProvider (Some "r8_token")))
    as (available & Hav & _ & _ & _ & _ & Hfail).
  rewrite Hav.
  rewrite (Hfail {| clientConfig := ReplicateConfig.mk "r8_token" 600000 2 |}
             "fetch failed" eq_refl eq_refl).
  reflexivity.
Defined.

(* ===================================================================== *)
(** ** More on capability inference *)
(* ===================================================================== *)

(** X14.  The classifier reads the identifier and the description only, and
    those up to the case of ASCII letters: two records whose identifiers read
    the same and whose descriptions read the same get the same capabilities,
    whatever their names and parameters. *)
Theorem inferCapabilitiesFromModel_same_text :
  forall (a b : ModelData.t),
    same_text (ModelData.id a) (ModelData.id b) ->
    same_text (ModelData.description a) (ModelData.description b) ->
    inferCapabilitiesFromModel a = inferCapabilitiesFromModel b.
Proof.
  intros a b Hid Hdesc. unfold same_text in *.
  rewrite !inferCapabilitiesFromModel_filter.
  unfold triggered_list, triggeredb. now rewrite Hid, Hdesc.
Qed.

Lemma inferCapabilitiesFromModel_same_text_witness :
  inferCapabilitiesFromModel
    (ModelData.mk (Some "Acme/FLUX-Video") (Some "Fast") (Some "Text To Image")
       None) =
  inferCapabilitiesFromModel
    (ModelData.mk (Some "acme/flux-video") None (Some "text to image") (Some [])).
Proof.
  apply inferCapabilitiesFromModel_same_text; reflexivity.
Defined.

Lemma sublist_In {A : Type} (l1 l2 : list A) (x : A) :
  sublist l1 l2 -> In x l1 -> In x l2.
Proof.
  induction 1 as [|y l1 l2 _ IH|y l1 l2 _ IH]; simpl; [tauto | tauto |].
  intros [-> | H]; [now left | right; now apply IH].
Qed.

Lemma sublist_NoDup {A : Type} (l1 l2 : list A) :
  sublist l1 l2 -> NoDup l2 -> NoDup l1.
Proof.
  induction 1 as [|y l1 l2 Hs IH|y l1 l2 Hs IH]; intros Hnd.
  - constructor.
  - inversion Hnd; subst. now apply IH.
  - inversion Hnd as [|? ? Hnotin Hnd']; subst. constructor; [|now apply IH].
    intros Hin. apply Hnotin. now apply (@sublist_In _ l1 l2 y Hs).
Qed.

(** X15.  The capabilities the classifier returns come in the order of its
    tests (image, video, audio of text, then image-to-image, then
    image-to-video), each at most once, and video-to-video is never among
    them. *)
Theorem inferCapabilitiesFromModel_ordered :
  forall (modelData : ModelData.t),
    sublist (inferCapabilitiesFromModel modelData) classifier_order /\
    NoDup (inferCapabilitiesFromModel modelData) /\
    ~ In VIDEO_TO_VIDEO (inferCapabilitiesFromModel modelData).
Proof.
  intros modelData.
  assert (S : sublist (inferCapabilitiesFromModel modelData) classifier_order).
  { rewrite inferCapabilitiesFromModel_filter.
    destruct (triggered_list modelData) as [|c l] eqn:E.
    - unfold classifier_order. apply sublist_keep.
      repeat apply sublist_skip. apply sublist_nil.
    - rewrite <- E. apply filter_sublist. }
  split; [assumption|]. split.
  - apply (@sublist_NoDup _ _ _ S). unfold classifier_order.
    repeat (constructor; [simpl; intuition discriminate|]). constructor.
  - intros Hin. apply (@sublist_In _ _ _ _ S) in Hin. unfold classifier_order in Hin.
    simpl in Hin. intuition discriminate.
Qed.

(* ===================================================================== *)
(** ** The timer and the catalog *)
(* ===================================================================== *)

Lemma on_event_listing (this : ReplicateProvider) (ev : Event) :
  listing (on_event this ev) =
  match ev, listing this with
  | ListingResolved _, Pending => Fulfilled
  | ListingRejected e, Pending => Rejected e
  | _, _ => listing this
  end.
Proof.
  destruct ev as [response|error|]; simpl; unfold listing_settled, timer_fired.
  - destruct (listing this) eqn:E; try assumption.
    rewrite performModelDiscovery_resume_eq, race_settled_eq. simpl.
    now destruct (background this).
  - destruct (listing this) eqn:E; try assumption.
    rewrite performModelDiscovery_resume_eq, race_settled_eq. simpl.
    now destruct (background this).
  - destruct (timeoutPromise this); try reflexivity.
    rewrite race_settled_eq. simpl. now destruct (background this).
Qed.

Lemma run_same_catalog (events : list Event) (a b : ReplicateProvider) :
  discoveredModels a = discoveredModels b -> listing a = listing b ->
  discoveredModels (run events a) = discoveredModels (run events b) /\
  listing (run events a) = listing (run events b).
Proof.
  unfold run. revert a b.
  induction events as [|ev events IH]; intros a b Hc Hl; simpl; [now split|].
  apply IH.
  - rewrite !on_event_discoveredModels, Hc, Hl. reflexivity.
  - rewrite !on_event_listing, Hl. reflexivity.
Qed.

(** X16.  The timer has no effect on the catalog: after any sequence of
    events the catalog is the one the same sequence gives with the firings of
    the timer left out; and once the listing call has settled, no later event
    changes the catalog. *)
Theorem timer_never_changes_catalog :
  forall (events : list Event) (this : ReplicateProvider),
    discoveredModels (run events this) =
      discoveredModels (run (filter settles_listing events) this) /\
    (listing this <> Pending ->
     discoveredModels (run events this) = discoveredModels this).
Proof.
  intros events this. split.
  - unfold run. revert this.
    induction events as [|ev events IH]; intros this; [reflexivity|].
    destruct ev as [response|error|]; cbn [filter settles_listing fold_left];
      try apply IH.
    rewrite <- IH. apply run_same_catalog.
    + now rewrite on_event_discoveredModels.
    + now rewrite on_event_listing.
  - unfold run. revert this.
    induction events as [|ev events IH]; intros this H; simpl; [reflexivity|].
    rewrite IH.
    + rewrite on_event_discoveredModels.
      destruct ev; try reflexivity. now destruct (listing this).
    + rewrite on_event_listing.
      destruct ev; try assumption; now destruct (listing this).
Qed.

Lemma timer_never_changes_catalog_witness :
  let settled :=
    on_event (new_ReplicateProvider (Some "r8_token"))
      (ListingRejected "fetch failed") in
  discoveredModels
    (run [ListingResolved
            {| results := Some [ModelData.mk (Some "acme/widget") None None None] |}]
         settled)
  = discoveredModels settled.
Proof.
  intros settled.
  apply (timer_never_changes_catalog
           [ListingResolved
              {| results := Some [ModelData.mk (Some "acme/widget") None None None] |}]
           settled).
  vm_compute. discriminate.
Defined.

(* ===================================================================== *)
(** ** From discovery to a wrapper *)
(* ===================================================================== *)

(** X17.  A discovered model can be used: when the listing resolves for a
    provider built with a credential, a record with a new, non-empty
    identifier (the first with that identifier in the listing) makes
    [getModel] of the identifier return a wrapper, of the class chosen from
    the capabilities inferred for the record, with the metadata name taken
    from the record by the rule of the merge and the credential of the
    provider. *)
Theorem discovered_model_is_served :
  forall remote (apiKey : string) (response : ListResponse)
         (modelId : string) (modelData : ModelData.t),
    JS.truthy apiKey = true ->
    JS.truthy modelId = true ->
    absent modelId (discoveredModels (new_ReplicateProvider (Some apiKey))) ->
    first_with_id modelId (records response) = Some modelData ->
    let this := on_event (new_ReplicateProvider (Some apiKey))
                  (ListingResolved response) in
    exists args,
      getModel remote modelId this =
        (Ok (wrapper_of (first_matching (inferCapabilitiesFromModel modelData)) args),
         this) /\
      meta_id (arg_modelMetadata args) = modelId /\
      meta_name (arg_modelMetadata args) =
        ProviderModel.name (discoveredProviderModel modelId modelData) /\
      auth (arg_replicateClient args) = apiKey.
Proof.
  intros remote apiKey response modelId modelData Hkey Hid Habs Hfirst this.
  destruct (new_configured apiKey Hkey) as (Hc & Hcfg & Hl & _).
  assert (Hm : JsMap.get (discoveredModels this) modelId =
               Some (discoveredProviderModel modelId modelData)).
  { unfold this. rewrite on_event_discoveredModels, Hl.
    apply get_None_iff in Habs. now apply get_discoverAll_new. }
  destruct (on_event_fields (new_ReplicateProvider (Some apiKey))
              (ListingResolved response)) as [Hc' Hcfg'].
  fold this in Hc', Hcfg'. rewrite Hc in Hc'. rewrite Hcfg in Hcfg'.
  assert (G : given (ProviderConfig.apiKey (ProviderConfig.mk (Some apiKey) None None))
                apiKey)
    by (split; [reflexivity | intros ->; discriminate]).
  destruct (@createModel_configured remote
              (wrapper_of (first_matching (inferCapabilitiesFromModel modelData)))
              modelId this _ _ _ apiKey Hc' Hm Hcfg' G)
    as (args & Hargs & _ & Hauth & Hmid & Hname).
  exists args. split; [|now repeat split].
  rewrite <- Hargs. unfold getModel, bind, read. simpl.
  rewrite Hc', resolveModel_eq, Hm.
  apply (f_equal (fun f => f this)), dispatch_first_matching.
Qed.

Lemma discovered_model_is_served_witness :
  let record := ModelData.mk (Some "acme/music-video-generator") None None None in
  let this := on_event (new_ReplicateProvider (Some "r8_token"))
                (ListingResolved {| results := Some [record] |}) in
  exists args,
    getModel (fun _ => Throw "Model not found") "acme/music-video-generator" this =
      (Ok (ReplicateTextToVideoModel args), this) /\
    meta_name (arg_modelMetadata args) = "music-video-generator".
Proof.
  intros record this.
  destruct (@discovered_model_is_served (fun _ => Throw "Model not found")
              "r8_token" {| results := Some [record] |}
              "acme/music-video-generator" record eq_refl eq_refl)
    as (args & Hget & _ & Hname & _).
  - vm_compute. intuition discriminate.
  - reflexivity.
  - exists args. split; [exact Hget | exact Hname].
Defined.
